(** * The MMU fast path of the RISC-V ISA simulator (riscv/mmu.h) and the
      device bus (riscv/devices.cc), as a shallow embedding.

    The C++ member functions of [mmu_t] become functions in a state and
    exception monad over a record [machine] that holds the fields of the
    class, the host memory the TLB points into, and a log of the calls made
    to collaborators whose code lives in other translation units. *)

From Stdlib Require Import ZArith List Bool Lia.
From stdpp Require Import base option gmap.
Import ListNotations.
Local Open Scope Z_scope.

(** ** Machine integers *)

(** [reg_t] is [uint64_t]; arithmetic on it wraps modulo 2^64. *)
Definition reg_t : Type := Z.
Definition wrap64 (x : Z) : reg_t := x mod 2 ^ 64.

(** mmu.h:20-22 *)
Definition PGSHIFT : Z := 12.
Definition PGSIZE : reg_t := Z.shiftl 1 PGSHIFT.
Definition PGMASK : reg_t := wrap64 (Z.lnot (PGSIZE - 1)).

(** The [type##_t] argument of the [load_func] / [store_func] / [amo_func]
    macros. *)
Inductive int_type : Type :=
| uint8 | uint16 | uint32 | uint64
| int8 | int16 | int32 | int64.

Definition sizeof (ty : int_type) : Z :=
  match ty with
  | uint8 | int8 => 1
  | uint16 | int16 => 2
  | uint32 | int32 => 4
  | uint64 | int64 => 8
  end.

Definition is_signed (ty : int_type) : bool :=
  match ty with
  | int8 | int16 | int32 | int64 => true
  | _ => false
  end.

(** Conversion of an integer to [type##_t]: truncation to the width, read
    back as a signed number for the signed types. *)
Definition as_type (ty : int_type) (v : Z) : Z :=
  let w := 8 * sizeof ty in
  let u := v mod 2 ^ w in
  if is_signed ty && (2 ^ (w - 1) <=? u) then u - 2 ^ w else u.

(** Conversion of a [type##_t] value to [reg_t] (sign extension, then the
    64-bit pattern). *)
Definition to_reg (v : Z) : reg_t := wrap64 v.

(** ** Host memory

    [tlb_data[i] + addr] is a host pointer ([char*]); the host memory is a
    byte-addressed store.  Multi-byte objects are laid out in the host's
    byte order (little endian). *)
Definition memory : Type := Z -> Z.

Fixpoint read_bytes (n : nat) (p : Z) (m : memory) : Z :=
  match n with
  | O => 0
  | S k => m p mod 256 + 256 * read_bytes k (p + 1) m
  end.

(** [*(type##_t* )p] as an rvalue. *)
Definition deref (ty : int_type) (p : Z) (m : memory) : Z :=
  as_type ty (read_bytes (Z.to_nat (sizeof ty)) p m).

(** [*(type##_t* )p = v]. *)
Definition assign (ty : int_type) (p : Z) (v : Z) (m : memory) : memory :=
  fun a =>
    if (p <=? a) && (a <? p + sizeof ty)
    then Z.shiftr v (8 * (a - p)) mod 256
    else m a.

(** Pointer arithmetic [base + addr] on the 64-bit host. *)
Definition ptr_add (base : Z) (addr : reg_t) : Z := wrap64 (base + addr).

(** ** Values declared in mmu.h and in the headers it includes *)

(** memtracer.h *)
Inductive access_type : Type := LOAD | STORE | FETCH.

(** processor.h *)
Inductive trigger_operation_t : Type :=
| OPERATION_EXECUTE | OPERATION_STORE | OPERATION_LOAD.

(** mmu.h:36-47 *)
Record trigger_matched_t : Type := {
  index : Z;
  operation : trigger_operation_t;
  address : reg_t;
  data : reg_t
}.

(** The exceptions that travel through the functions of mmu.h: the memory
    traps of trap.h and a thrown [trigger_matched_t]. *)
Inductive exception : Type :=
| trap_instruction_access_fault (badaddr : reg_t)
| trap_load_address_misaligned (badaddr : reg_t)
| trap_store_address_misaligned (badaddr : reg_t)
| trap_load_access_fault (badaddr : reg_t)
| trap_store_access_fault (badaddr : reg_t)
| throw_trigger_matched (t : trigger_matched_t).

(** [insn_func_t] is a function pointer; only its identity matters here. *)
Definition insn_func_t : Type := Z.
Definition insn_bits_t : Type := Z.

(** mmu.h:24-34 *)
Record insn_fetch_t : Type := {
  func : insn_func_t;
  insn : insn_bits_t
}.

Record icache_entry_t : Type := {
  tag : reg_t;
  pad : reg_t;
  entry_data : insn_fetch_t
}.

(** mmu.h:50-71.  [std::array<reg_t, 256>] is a total function consulted
    on indices below 256; [std::unordered_map] is a finite map. *)
Record tlb_t : Type := {
  meta : Z -> reg_t;
  tags : Z -> reg_t;
  tag_map : gmap Z Z
}.

(** mmu.h:372-378 *)
Record trace_t : Type := {
  len : Z;
  addr : reg_t;
  trace_data : reg_t
}.

(** What mmu.h reads through [proc]: the privilege state, the trigger
    module and the decoder (processor.h). *)
Record processor_t : Type := {
  prv : reg_t;
  mstatus : reg_t;
  dcsr_cause : Z;
  mcontrol_timing : Z -> Z;
  trigger_match : trigger_operation_t -> reg_t -> reg_t -> Z;
  decode_insn : insn_bits_t -> insn_func_t;
  timestamp : Z
}.

(** Calls that leave mmu.h, in the order they are made. *)
Inductive call : Type :=
| call_load_slow_path (a l : reg_t)
| call_store_slow_path (a l : reg_t) (bytes : Z)
| call_fetch_slow_path (a : reg_t)
| call_trigger_match (op : trigger_operation_t) (a d : reg_t)
| call_record (l : Z) (a d : reg_t)
| call_trace (paddr : reg_t) (l : Z) (type : access_type).

(** mmu.h:236-389: the fields of [mmu_t], the host memory, and the call
    log.  The C arrays are total functions; every index the code uses is
    reduced modulo the array size first. *)
Record machine : Type := {
  proc : option processor_t;
  tracer_interested_in_range : reg_t -> reg_t -> access_type -> bool;
  itlb : tlb_t;
  dtlb : tlb_t;
  icache : Z -> icache_entry_t;
  tlb_data : Z -> Z;
  tlb_insn_tag : Z -> reg_t;
  tlb_load_tag : Z -> reg_t;
  tlb_store_tag : Z -> reg_t;
  matched_trigger : option trigger_matched_t;
  timewarp : bool;
  trace_clks : list Z;
  traces : list trace_t;
  mem : memory;
  calls : list call
}.

Definition set_matched_trigger (t : option trigger_matched_t) (s : machine) : machine :=
  {| proc := proc s; tracer_interested_in_range := tracer_interested_in_range s;
     itlb := itlb s; dtlb := dtlb s; icache := icache s; tlb_data := tlb_data s;
     tlb_insn_tag := tlb_insn_tag s; tlb_load_tag := tlb_load_tag s;
     tlb_store_tag := tlb_store_tag s; matched_trigger := t;
     timewarp := timewarp s; trace_clks := trace_clks s; traces := traces s;
     mem := mem s; calls := calls s |}.

Definition set_mem (m : memory) (s : machine) : machine :=
  {| proc := proc s; tracer_interested_in_range := tracer_interested_in_range s;
     itlb := itlb s; dtlb := dtlb s; icache := icache s; tlb_data := tlb_data s;
     tlb_insn_tag := tlb_insn_tag s; tlb_load_tag := tlb_load_tag s;
     tlb_store_tag := tlb_store_tag s; matched_trigger := matched_trigger s;
     timewarp := timewarp s; trace_clks := trace_clks s; traces := traces s;
     mem := m; calls := calls s |}.

Definition set_calls (l : list call) (s : machine) : machine :=
  {| proc := proc s; tracer_interested_in_range := tracer_interested_in_range s;
     itlb := itlb s; dtlb := dtlb s; icache := icache s; tlb_data := tlb_data s;
     tlb_insn_tag := tlb_insn_tag s; tlb_load_tag := tlb_load_tag s;
     tlb_store_tag := tlb_store_tag s; matched_trigger := matched_trigger s;
     timewarp := timewarp s; trace_clks := trace_clks s; traces := traces s;
     mem := mem s; calls := l |}.

Definition set_icache (c : Z -> icache_entry_t) (s : machine) : machine :=
  {| proc := proc s; tracer_interested_in_range := tracer_interested_in_range s;
     itlb := itlb s; dtlb := dtlb s; icache := c; tlb_data := tlb_data s;
     tlb_insn_tag := tlb_insn_tag s; tlb_load_tag := tlb_load_tag s;
     tlb_store_tag := tlb_store_tag s; matched_trigger := matched_trigger s;
     timewarp := timewarp s; trace_clks := trace_clks s; traces := traces s;
     mem := mem s; calls := calls s |}.

Definition set_history (clks : list Z) (trs : list trace_t) (s : machine) : machine :=
  {| proc := proc s; tracer_interested_in_range := tracer_interested_in_range s;
     itlb := itlb s; dtlb := dtlb s; icache := icache s; tlb_data := tlb_data s;
     tlb_insn_tag := tlb_insn_tag s; tlb_load_tag := tlb_load_tag s;
     tlb_store_tag := tlb_store_tag s; matched_trigger := matched_trigger s;
     timewarp := timewarp s; trace_clks := clks; traces := trs;
     mem := mem s; calls := calls s |}.

(** ** The monad: state, C++ exceptions, undefined behaviour *)

Inductive outcome (A : Type) : Type :=
| Normal (a : A)
| Thrown (e : exception)
| Undefined.
Arguments Normal {A} a.
Arguments Thrown {A} e.
Arguments Undefined {A}.

Definition M (A : Type) : Type := machine -> outcome A * machine.

Definition ret {A} (a : A) : M A := fun s => (Normal a, s).
Definition throw {A} (e : exception) : M A := fun s => (Thrown e, s).
Definition undefined {A} : M A := fun s => (Undefined, s).

Definition bind {A B} (m : M A) (k : A -> M B) : M B :=
  fun s =>
    match m s with
    | (Normal a, s') => k a s'
    | (Thrown e, s') => (Thrown e, s')
    | (Undefined, s') => (Undefined, s')
    end.

Definition gets {A} (f : machine -> A) : M A := fun s => (Normal (f s), s).
Definition modify (f : machine -> machine) : M unit := fun s => (Normal tt, f s).

Declare Scope mmu_scope.
Delimit Scope mmu_scope with mmu.
Notation "'let*' x ':=' e 'in' k" := (bind e (fun x => k))
  (at level 10, x name, e at level 100, k at level 200) : mmu_scope.
Notation "e1 ';;' k" := (bind e1 (fun _ => k))
  (at level 100, k at level 200, right associativity) : mmu_scope.
Local Open Scope mmu_scope.

(** [try { body } catch (trap_load_access_fault& t) { handler t }] *)
Definition try_catch_load_access_fault {A} (body : M A) (handler : reg_t -> M A) : M A :=
  fun s =>
    match body s with
    | (Thrown (trap_load_access_fault badaddr), s') => handler badaddr s'
    | r => r
    end.

(** [proc->...]: dereferencing a null [proc] is undefined. *)
Definition with_proc {A} (k : processor_t -> M A) : M A :=
  fun s =>
    match proc s with
    | Some p => k p s
    | None => (Undefined, s)
    end.

(** Statements of a [void] function: a statement either falls through to
    the next one or executes [return;]. *)
Inductive flow : Type := Next | Return.

Definition stmt : Type := M flow.
Definition next : stmt := ret Next.
Definition return_ : stmt := ret Return.

Definition stmt_seq (s1 s2 : stmt) : stmt :=
  let* f := s1 in
  match f with
  | Next => s2
  | Return => ret Return
  end.

Definition void_function (body : stmt) : M unit :=
  let* _ := body in ret tt.

(** ** Collaborators outside mmu.h *)

(** The constants and the field accessor of encoding.h and decode.h that
    [check_permission] uses.  The headers lie outside mmu.h, so their
    values are parameters of the model. *)
Record encoding_t : Type := {
  get_field : reg_t -> reg_t -> reg_t;
  MSTATUS_MPRV : reg_t;
  MSTATUS_MPP : reg_t;
  MSTATUS_VM : reg_t;
  MSTATUS_PUM : reg_t;
  MSTATUS_MXR : reg_t;
  VM_MBARE : reg_t;
  VM_SV32 : reg_t;
  VM_SV39 : reg_t;
  VM_SV48 : reg_t;
  PRV_S : reg_t;
  PRV_M : reg_t;
  PTE_V : reg_t;
  PTE_R : reg_t;
  PTE_W : reg_t;
  PTE_X : reg_t;
  PTE_U : reg_t;
  PTE_D : reg_t
}.

(** The functions mmu.h declares or calls but does not define: the slow
    paths and [record] (mmu.cc), [sim_t::mem_to_addr] (sim.h), and the
    macros [insn_length] and [PC_ALIGN] (decode.h).  A member function of
    [mmu_t] may change any field of the MMU and may throw.
    [load_slow_path] yields the integer held by the byte buffer it fills. *)
Record environment : Type := {
  encoding : encoding_t;
  load_slow_path : reg_t -> reg_t -> machine -> outcome Z * machine;
  store_slow_path : reg_t -> reg_t -> Z -> machine -> outcome unit * machine;
  fetch_slow_path : reg_t -> machine -> outcome Z * machine;
  record : Z -> reg_t -> reg_t -> machine -> outcome unit * machine;
  mem_to_addr : Z -> reg_t;
  insn_length : insn_bits_t -> Z;
  PC_ALIGN : Z
}.

(** A call that leaves mmu.h is entered in the log; the callee cannot
    alter the log. *)
Definition log (c : call) : M unit :=
  modify (fun s => set_calls (calls s ++ [c]) s).

Definition invoke {A} (c : call) (f : machine -> outcome A * machine) : M A :=
  fun s => let (r, s') := f s in (r, set_calls (calls s ++ [c]) s').

(** [proc->trigger_match(operation, address, data)] *)
Definition proc_trigger_match (p : processor_t)
    (op : trigger_operation_t) (a d : reg_t) : M Z :=
  log (call_trigger_match op a d) ;;
  ret (trigger_match p op a d).

(** ** mmu.h *)

(** mmu.h:171, 249, 252 *)
Definition ICACHE_ENTRIES : reg_t := 1024.
Definition TLB_ENTRIES : reg_t := 256.
Definition TLB_CHECK_TRIGGERS : reg_t := Z.shiftl 1 63.

Definition nonzero (x : Z) : bool := negb (x =? 0).

Section MMU.

Variable E : environment.
Let enc := encoding E.

(** mmu.h:287-291: the [switch] has no [break]; control falls through the
    labels below the one it enters. *)
Definition vm_tag_mask (vm : reg_t) (t : reg_t) : reg_t :=
  let m20 := Z.shiftl 1 20 - 1 in
  let m27 := Z.shiftl 1 27 - 1 in
  let m36 := Z.shiftl 1 36 - 1 in
  if vm =? VM_SV32 enc then Z.land (Z.land (Z.land t m20) m27) m36
  else if vm =? VM_SV39 enc then Z.land (Z.land t m27) m36
  else if vm =? VM_SV48 enc then Z.land t m36
  else t.

(** mmu.h:273-328: the statements of [check_permission] below its first
    line. *)
Definition check_permission_rest (vaddr : reg_t) (type : access_type) : stmt :=
  with_proc (fun p =>
    let mode := prv p in
    let mode :=
      match type with
      | FETCH => mode
      | _ =>
          if (dcsr_cause p =? 0) && nonzero (get_field enc (mstatus p) (MSTATUS_MPRV enc))
          then get_field enc (mstatus p) (MSTATUS_MPP enc)
          else mode
      end in
    let mode :=
      if get_field enc (mstatus p) (MSTATUS_VM enc) =? VM_MBARE enc
      then PRV_M enc else mode in
    if mode =? PRV_M enc then return_ else
    let supervisor := mode =? PRV_S enc in
    let pum := nonzero (get_field enc (mstatus p) (MSTATUS_PUM enc)) in
    let mxr := nonzero (get_field enc (mstatus p) (MSTATUS_MXR enc)) in
    let* tlb := gets (match type with FETCH => itlb | _ => dtlb end) in
    let t := Z.shiftr vaddr PGSHIFT in
    let t := vm_tag_mask (get_field enc (mstatus p) (MSTATUS_VM enc)) t in
    match tag_map tlb !! t with
    | None => return_
    | Some a =>
        let m := meta tlb a in
        let no_priv :=
          if nonzero (Z.land m (PTE_U enc)) then supervisor && pum
          else negb supervisor in
        let no_valid :=
          negb (nonzero (Z.land m (PTE_V enc)))
          || (negb (nonzero (Z.land m (PTE_R enc))) && nonzero (Z.land m (PTE_W enc))) in
        match type with
        | FETCH =>
            let xcpt_if := no_priv || no_valid || negb (nonzero (Z.land m (PTE_X enc))) in
            if xcpt_if then throw (trap_instruction_access_fault vaddr) else next
        | LOAD =>
            let xcpt_ld := no_priv || no_valid
              || (negb (nonzero (Z.land m (PTE_R enc)))
                  && negb (mxr && nonzero (Z.land m (PTE_X enc)))) in
            if xcpt_ld then throw (trap_load_access_fault vaddr) else next
        | STORE =>
            let miss := negb no_priv && negb no_valid
              && nonzero (Z.land m (PTE_W enc)) && negb (nonzero (Z.land m (PTE_D enc))) in
            if miss then return_ else
            let xcpt_st := no_priv || no_valid
              || negb (nonzero (Z.land m (PTE_R enc)) && nonzero (Z.land m (PTE_W enc))) in
            if xcpt_st then throw (trap_store_access_fault vaddr) else next
        end
    end).

(** mmu.h:271-329.  The first statement of the body is [return;]. *)
Definition check_permission (vaddr : reg_t) (type : access_type) : M unit :=
  void_function (stmt_seq return_ (check_permission_rest vaddr type)).

(** mmu.h:347-360 *)
Definition trigger_exception (op : trigger_operation_t) (a d : reg_t)
    : M (option trigger_matched_t) :=
  let* po := gets proc in
  match po with
  | None => ret None
  | Some p =>
      let* match_ := proc_trigger_match p op a d in
      if match_ =? -1 then ret None
      else if mcontrol_timing p match_ =? 0
      then throw (throw_trigger_matched
                    {| index := match_; operation := op; address := a; data := d |})
      else ret (Some {| index := match_; operation := op; address := a; data := d |})
  end.

(** mmu.h:94-98 and 131-135: the trigger check of a load or a store. *)
Definition check_trigger (op : trigger_operation_t) (a d : reg_t) : M unit :=
  let* mt := gets matched_trigger in
  match mt with
  | Some _ => ret tt
  | None =>
      let* r := trigger_exception op a d in
      modify (set_matched_trigger r) ;;
      match r with
      | Some t => throw (throw_trigger_matched t)
      | None => ret tt
      end
  end.

(** [if (likely(timewarp)) check_permission(addr, type);] *)
Definition when_timewarp (m : M unit) : M unit :=
  let* tw := gets timewarp in
  if tw then m else ret tt.

Definition misaligned (ty : int_type) (a : reg_t) : bool :=
  nonzero (Z.land a (sizeof ty - 1)).

(** mmu.h:84-104 *)
Definition load_func (ty : int_type) (a : reg_t) : M Z :=
  if misaligned ty a then throw (trap_load_address_misaligned a) else
  let vpn := Z.shiftr a PGSHIFT in
  when_timewarp (check_permission a LOAD) ;;
  let* t := gets (fun s => tlb_load_tag s (vpn mod TLB_ENTRIES)) in
  if t =? vpn then
    gets (fun s => deref ty (ptr_add (tlb_data s (vpn mod TLB_ENTRIES)) a) (mem s))
  else if t =? Z.lor vpn TLB_CHECK_TRIGGERS then
    let* d := gets (fun s => deref ty (ptr_add (tlb_data s (vpn mod TLB_ENTRIES)) a) (mem s)) in
    check_trigger OPERATION_LOAD a (to_reg d) ;;
    ret d
  else
    let* res := invoke (call_load_slow_path a (sizeof ty))
                       (load_slow_path E a (sizeof ty)) in
    ret (as_type ty res).

(** mmu.h:126-129 and 136-139: the raw store through the cached pointer. *)
Definition store_at (ty : int_type) (a : reg_t) (val : Z) : M unit :=
  let* p := gets (fun s => ptr_add (tlb_data s (Z.shiftr a PGSHIFT mod TLB_ENTRIES)) a) in
  let* tw := gets timewarp in
  (if tw then
     let* old := gets (fun s => deref ty p (mem s)) in
     invoke (call_record (sizeof ty) (mem_to_addr E p) (to_reg old))
            (record E (sizeof ty) (mem_to_addr E p) (to_reg old))
   else ret tt) ;;
  modify (fun s => set_mem (assign ty p val (mem s)) s).

(** mmu.h:119-143 *)
Definition store_func (ty : int_type) (a : reg_t) (val : Z) : M unit :=
  if misaligned ty a then throw (trap_store_address_misaligned a) else
  let vpn := Z.shiftr a PGSHIFT in
  when_timewarp (check_permission a STORE) ;;
  let* t := gets (fun s => tlb_store_tag s (vpn mod TLB_ENTRIES)) in
  if t =? vpn then
    store_at ty a val
  else if t =? Z.lor vpn TLB_CHECK_TRIGGERS then
    check_trigger OPERATION_STORE a (to_reg val) ;;
    store_at ty a val
  else
    invoke (call_store_slow_path a (sizeof ty) val)
           (store_slow_path E a (sizeof ty) val).

(** mmu.h:146-159 *)
Definition amo_func (ty : int_type) (a : reg_t) (f : Z -> Z) : M Z :=
  if misaligned ty a then throw (trap_store_address_misaligned a) else
  try_catch_load_access_fault
    (let* lhs := load_func ty a in
     store_func ty a (as_type ty (f lhs)) ;;
     ret lhs)
    (fun badaddr => throw (trap_store_access_fault badaddr)).

(** mmu.h:107-116, 162-169: the instances of the macros. *)
Definition load_uint8 := load_func uint8.
Definition load_uint16 := load_func uint16.
Definition load_uint32 := load_func uint32.
Definition load_uint64 := load_func uint64.
Definition load_int8 := load_func int8.
Definition load_int16 := load_func int16.
Definition load_int32 := load_func int32.
Definition load_int64 := load_func int64.
Definition store_uint8 := store_func uint8.
Definition store_uint16 := store_func uint16.
Definition store_uint32 := store_func uint32.
Definition store_uint64 := store_func uint64.
Definition amo_uint32 := amo_func uint32.
Definition amo_uint64 := amo_func uint64.

(** mmu.h:332-345 *)
Definition translate_insn_addr (a : reg_t) : M Z :=
  let vpn := Z.shiftr a PGSHIFT in
  when_timewarp (check_permission a FETCH) ;;
  let* t := gets (fun s => tlb_insn_tag s (vpn mod TLB_ENTRIES)) in
  if t =? vpn then
    gets (fun s => ptr_add (tlb_data s (vpn mod TLB_ENTRIES)) a)
  else if t =? Z.lor vpn TLB_CHECK_TRIGGERS then
    let* ptr := gets (fun s => ptr_add (tlb_data s (vpn mod TLB_ENTRIES)) a) in
    let* d := gets (fun s => deref uint16 ptr (mem s)) in
    with_proc (fun p =>
      let* match_ := proc_trigger_match p OPERATION_EXECUTE a d in
      if 0 <=? match_
      then throw (throw_trigger_matched
                    {| index := match_; operation := OPERATION_EXECUTE;
                       address := a; data := d |})
      else ret ptr)
  else
    invoke (call_fetch_slow_path a) (fetch_slow_path E a).

(** mmu.h:173-176 *)
Definition icache_index (a : reg_t) : Z := (a / PC_ALIGN E) mod ICACHE_ENTRIES.

Definition shl64 (x : Z) (n : Z) : Z := wrap64 (Z.shiftl x n).

(** [entry->tag = t] and [entry->data = f], [entry] pointing at
    [icache[i]]. *)
Definition set_entry_tag (i : Z) (t : reg_t) (s : machine) : machine :=
  set_icache (fun j =>
    if j =? i
    then {| tag := t; pad := pad (icache s i); entry_data := entry_data (icache s i) |}
    else icache s j) s.

Definition set_entry_data (i : Z) (f : insn_fetch_t) (s : machine) : machine :=
  set_icache (fun j =>
    if j =? i
    then {| tag := tag (icache s i); pad := pad (icache s i); entry_data := f |}
    else icache s j) s.

(** The halfword at [a], fetched through the instruction TLB and read as
    [ty] (mmu.h:185-195). *)
Definition fetch_half (ty : int_type) (a : reg_t) : M Z :=
  let* p := translate_insn_addr a in
  gets (fun s => to_reg (deref ty p (mem s))).

(** mmu.h:178-208.  [entry] is the index of the slot of [icache] the
    pointer refers to. *)
Definition refill_icache (a : reg_t) (entry : Z) : M Z :=
  let* iaddr := translate_insn_addr a in
  let* insn0 := gets (fun s => deref uint16 iaddr (mem s)) in
  let length := insn_length E insn0 in
  let* bits :=
    if length =? 4 then
      let* h2 := fetch_half int16 (wrap64 (a + 2)) in
      ret (Z.lor insn0 (shl64 h2 16))
    else if length =? 2 then
      ret (to_reg (as_type int16 insn0))
    else if length =? 6 then
      let* h4 := fetch_half int16 (wrap64 (a + 4)) in
      let* h2 := fetch_half uint16 (wrap64 (a + 2)) in
      ret (Z.lor (Z.lor insn0 (shl64 h4 32)) (shl64 h2 16))
    else
      let* h6 := fetch_half int16 (wrap64 (a + 6)) in
      let* h4 := fetch_half uint16 (wrap64 (a + 4)) in
      let* h2 := fetch_half uint16 (wrap64 (a + 2)) in
      ret (Z.lor (Z.lor (Z.lor insn0 (shl64 h6 48)) (shl64 h4 32)) (shl64 h2 16)) in
  let* fetch := with_proc (fun p => ret {| func := decode_insn p bits; insn := bits |}) in
  modify (set_entry_tag entry a) ;;
  modify (set_entry_data entry fetch) ;;
  let paddr := mem_to_addr E iaddr in
  let* interested :=
    gets (fun s => tracer_interested_in_range s paddr (wrap64 (paddr + 1)) FETCH) in
  (if interested then
     modify (set_entry_tag entry (wrap64 (-1))) ;;
     log (call_trace paddr length FETCH)
   else ret tt) ;;
  ret entry.

(** mmu.h:210-216 *)
Definition access_icache (a : reg_t) : M Z :=
  let entry := icache_index a in
  let* t := gets (fun s => tag (icache s entry)) in
  if t =? a then ret entry
  else refill_icache a entry.

(** mmu.h:178-208, for a caller whose [entry] points at a local variable
    of its own rather than into [icache]: the local is passed in and the
    written one is handed back. *)
Definition refill_icache_local (a : reg_t) (entry : icache_entry_t) : M icache_entry_t :=
  let* iaddr := translate_insn_addr a in
  let* insn0 := gets (fun s => deref uint16 iaddr (mem s)) in
  let length := insn_length E insn0 in
  let* bits :=
    if length =? 4 then
      let* h2 := fetch_half int16 (wrap64 (a + 2)) in
      ret (Z.lor insn0 (shl64 h2 16))
    else if length =? 2 then
      ret (to_reg (as_type int16 insn0))
    else if length =? 6 then
      let* h4 := fetch_half int16 (wrap64 (a + 4)) in
      let* h2 := fetch_half uint16 (wrap64 (a + 2)) in
      ret (Z.lor (Z.lor insn0 (shl64 h4 32)) (shl64 h2 16))
    else
      let* h6 := fetch_half int16 (wrap64 (a + 6)) in
      let* h4 := fetch_half uint16 (wrap64 (a + 4)) in
      let* h2 := fetch_half uint16 (wrap64 (a + 2)) in
      ret (Z.lor (Z.lor (Z.lor insn0 (shl64 h6 48)) (shl64 h4 32)) (shl64 h2 16)) in
  let* fetch := with_proc (fun p => ret {| func := decode_insn p bits; insn := bits |}) in
  let entry := {| tag := a; pad := pad entry; entry_data := entry_data entry |} in
  let entry := {| tag := tag entry; pad := pad entry; entry_data := fetch |} in
  let paddr := mem_to_addr E iaddr in
  let* interested :=
    gets (fun s => tracer_interested_in_range s paddr (wrap64 (paddr + 1)) FETCH) in
  if interested then
    let entry := {| tag := wrap64 (-1); pad := pad entry; entry_data := entry_data entry |} in
    log (call_trace paddr length FETCH) ;;
    ret entry
  else ret entry.

(** mmu.h:218-222.  [entry] is the uninitialised local of the function. *)
Definition load_insn (a : reg_t) (entry : icache_entry_t) : M insn_fetch_t :=
  let* e := refill_icache_local a entry in
  ret (entry_data e).

(** mmu.h:230-232 *)
Definition set_timewarp (value : bool) : M unit :=
  modify (fun s =>
    {| proc := proc s; tracer_interested_in_range := tracer_interested_in_range s;
       itlb := itlb s; dtlb := dtlb s; icache := icache s; tlb_data := tlb_data s;
       tlb_insn_tag := tlb_insn_tag s; tlb_load_tag := tlb_load_tag s;
       tlb_store_tag := tlb_store_tag s; matched_trigger := matched_trigger s;
       timewarp := value; trace_clks := trace_clks s; traces := traces s;
       mem := mem s; calls := calls s |}).

End MMU.

(** ** devices.cc *)

(** devices.h: a device answers a load or a store at an offset with a
    [bool].  A load hands back the byte buffer it was given, a store the
    characters it wrote to [stdout]. *)
Record abstract_device_t : Type := {
  load : reg_t -> nat -> list Z -> bool * list Z;
  store : reg_t -> nat -> list Z -> bool * list Z
}.

(** [reg_t] negation: [-addr]. *)
Definition neg64 (a : reg_t) : reg_t := wrap64 (- a).

(** [std::map<reg_t, V>]: the entries in ascending order of their keys,
    one entry per key. *)
Section StdMap.

Context {V : Type}.

(** [m[k] = v] *)
Fixpoint map_assign (k : reg_t) (v : V) (m : list (reg_t * V)) : list (reg_t * V) :=
  match m with
  | [] => [(k, v)]
  | (k', v') :: r =>
      if k <? k' then (k, v) :: m
      else if k =? k' then (k, v) :: r
      else (k', v') :: map_assign k v r
  end.

(** [m.lower_bound(k)]: the first entry whose key is not less than [k];
    [None] stands for [m.end()]. *)
Fixpoint lower_bound (k : reg_t) (m : list (reg_t * V)) : option (reg_t * V) :=
  match m with
  | [] => None
  | (k', v') :: r => if k <=? k' then Some (k', v') else lower_bound k r
  end.

End StdMap.

Record bus_t : Type := {
  devices : list (reg_t * abstract_device_t)
}.

(** devices.cc:3-6 *)
Definition bus_t_add_device (a : reg_t) (dev : abstract_device_t) (b : bus_t) : bus_t :=
  {| devices := map_assign (neg64 a) dev (devices b) |}.

(** devices.cc:8-14 *)
Definition bus_t_load (b : bus_t) (a : reg_t) (l : nat) (bytes : list Z) : bool * list Z :=
  match lower_bound (neg64 a) (devices b) with
  | None => (false, bytes)
  | Some (k, dev) => load dev (wrap64 (a - neg64 k)) l bytes
  end.

(** devices.cc:16-22 *)
Definition bus_t_store (b : bus_t) (a : reg_t) (l : nat) (bytes : list Z) : bool * list Z :=
  match lower_bound (neg64 a) (devices b) with
  | None => (false, [])
  | Some (k, dev) => store dev (wrap64 (a - neg64 k)) l bytes
  end.

(** [for (size_t i = 0 ; i < len ; i++) bytes[i] = v;] *)
Definition fill_bytes (l : nat) (v : Z) (bytes : list Z) : list Z :=
  fold_left (fun b i => <[i := v]> b) (List.seq 0 l) bytes.

(** devices.cc:24-37 *)
Definition uart_dev_t_load (a : reg_t) (l : nat) (bytes : list Z) : bool * list Z :=
  if a =? 0 then (true, fill_bytes l 0x00 bytes)
  else if a =? 4 then (true, fill_bytes l 0xff bytes)
  else (false, bytes).

(** devices.cc:39-56 *)
Definition uart_dev_t_store (print : bool) (a : reg_t) (l : nat) (bytes : list Z)
    : bool * list Z :=
  if a =? 0 then (true, if print then [nth 0 bytes 0 mod 256] else [])
  else if a =? 4 then (true, [])
  else if a =? 8 then (true, [])
  else if a =? 12 then (true, [])
  else if a =? 16 then (true, [])
  else (false, []).

Definition uart_dev_t (print : bool) : abstract_device_t :=
  {| load := uart_dev_t_load; store := uart_dev_t_store print |}.

(** The bus after a sequence of registrations; the head of the list is the
    latest call of [add_device]. *)
Definition bus_of (regs : list (reg_t * abstract_device_t)) : bus_t :=
  fold_right (fun r b => bus_t_add_device (fst r) (snd r) b) {| devices := [] |} regs.

(** The device the specification names for an address: among the
    registrations [(base, dev)], the one with the greatest base not
    exceeding the address (the latest one, when a base was registered more
    than once).  This follows the words of the specification, not the
    code. *)
Fixpoint greatest_base_le (a : reg_t) (regs : list (reg_t * abstract_device_t))
    : option (reg_t * abstract_device_t) :=
  match regs with
  | [] => None
  | (base, dev) :: r =>
      match greatest_base_le a r with
      | Some (base', dev') =>
          if (base <=? a) && (base' <=? base) then Some (base, dev)
          else Some (base', dev')
      | None => if base <=? a then Some (base, dev) else None
      end
  end.

(** ** Concrete configurations *)

(** The values of encoding.h for the privileged architecture this
    simulator implements (version 1.9.1), and its [get_field] macro. *)
Definition riscv_encoding : encoding_t :=
  {| get_field := fun reg mask =>
       Z.land reg mask / Z.land mask (Z.lnot (Z.shiftl mask 1));
     MSTATUS_MPRV := 0x00020000;
     MSTATUS_MPP := 0x00001800;
     MSTATUS_VM := 0x1F000000;
     MSTATUS_PUM := 0x00040000;
     MSTATUS_MXR := 0x00080000;
     VM_MBARE := 0;
     VM_SV32 := 8;
     VM_SV39 := 9;
     VM_SV48 := 10;
     PRV_S := 1;
     PRV_M := 3;
     PTE_V := 0x001;
     PTE_R := 0x002;
     PTE_W := 0x004;
     PTE_X := 0x008;
     PTE_U := 0x010;
     PTE_D := 0x080 |}.

(** The [insn_length] macro of decode.h. *)
Definition riscv_insn_length (x : insn_bits_t) : Z :=
  if Z.land x 0x03 <? 0x03 then 2
  else if Z.land x 0x1f <? 0x1f then 4
  else if Z.land x 0x3f <? 0x3f then 6
  else 8.

(** Modelled from the spec: [record] is declared at mmu.h:386 and defined
    in mmu.cc, which is not among the sources.  It appends {len, physical
    address, pre-write value}, keyed by the current logical timestamp
    (mmu.h:385), to the history of stores. *)
Definition record_append (l : Z) (a : reg_t) (d : reg_t) : M unit :=
  with_proc (fun p =>
    modify (fun s =>
      set_history (trace_clks s ++ [timestamp p])
                  (traces s ++ [{| len := l; addr := a; trace_data := d |}]) s)).

(** An environment whose slow paths find no mapping and raise the access
    fault of their kind; host pointers are physical addresses. *)
Definition env0 : environment :=
  {| encoding := riscv_encoding;
     load_slow_path := fun a _ => throw (trap_load_access_fault a);
     store_slow_path := fun a _ _ => throw (trap_store_access_fault a);
     fetch_slow_path := fun a => throw (trap_instruction_access_fault a);
     record := record_append;
     mem_to_addr := fun p => p;
     insn_length := riscv_insn_length;
     PC_ALIGN := 2 |}.

(** A hart in supervisor mode under Sv39, with one trigger whose match
    function and timing are given. *)
Definition hart (tm : trigger_operation_t -> reg_t -> reg_t -> Z) (timing : Z)
    : processor_t :=
  {| prv := 1;
     mstatus := 0x09000000;
     dcsr_cause := 0;
     mcontrol_timing := fun _ => timing;
     trigger_match := tm;
     decode_insn := fun bits => bits;
     timestamp := 7 |}.

Definition no_trigger : trigger_operation_t -> reg_t -> reg_t -> Z := fun _ _ _ => -1.
Definition trigger_0 : trigger_operation_t -> reg_t -> reg_t -> Z := fun _ _ _ => 0.

Definition empty_tlb : tlb_t :=
  {| meta := fun _ => 0; tags := fun _ => wrap64 (-1); tag_map := ∅ |}.

(** The permission record of page 1: valid and readable, not writable,
    not executable, not a user page. *)
Definition read_only_page_1 : tlb_t :=
  {| meta := fun i => if i =? 0 then 0x003 else 0;
     tags := fun i => if i =? 0 then 1 else wrap64 (-1);
     tag_map := {[ 1 := 0 ]} |}.

(** Slot 1 of a TLB table holds [t]; the other slots are invalid. *)
Definition slot_1 (t : reg_t) : Z -> reg_t :=
  fun i => if i =? 1 then t else wrap64 (-1).

Definition invalid_entry : icache_entry_t :=
  {| tag := wrap64 (-1); pad := 0; entry_data := {| func := 0; insn := 0 |} |}.

(** A machine whose three TLB tables map page 1 (virtual 0x1000-0x1fff)
    to the host memory at the same addresses. *)
Definition machine_1 (p : option processor_t) (d : tlb_t) (t : reg_t)
    (mt : option trigger_matched_t) (tw : bool)
    (interested : reg_t -> reg_t -> access_type -> bool) (m : memory) : machine :=
  {| proc := p;
     tracer_interested_in_range := interested;
     itlb := empty_tlb;
     dtlb := d;
     icache := fun _ => invalid_entry;
     tlb_data := fun _ => 0;
     tlb_insn_tag := slot_1 t;
     tlb_load_tag := slot_1 t;
     tlb_store_tag := slot_1 t;
     matched_trigger := mt;
     timewarp := tw;
     trace_clks := [];
     traces := [];
     mem := m;
     calls := [] |}.

Definition zero_memory : memory := fun _ => 0.
Definition not_interested : reg_t -> reg_t -> access_type -> bool := fun _ _ _ => false.

(** Page 1 cached without the trigger flag. *)
Definition plain_hit : machine :=
  machine_1 (Some (hart no_trigger 0)) empty_tlb 1 None false not_interested zero_memory.

(** Page 1 cached with [TLB_CHECK_TRIGGERS]. *)
Definition flagged (p : option processor_t) (mt : option trigger_matched_t) : machine :=
  machine_1 p empty_tlb (Z.lor 1 TLB_CHECK_TRIGGERS) mt false not_interested zero_memory.

Definition earlier_match : trigger_matched_t :=
  {| index := 0; operation := OPERATION_LOAD; address := 0x1000; data := 0 |}.

(** A tracer that watches the byte at physical address 0x1002, and a
    memory that holds a four-byte instruction (an [addi]) at 0x1000. *)
Definition watch_0x1002 : reg_t -> reg_t -> access_type -> bool :=
  fun b e _ => (b <=? 0x1002) && (0x1002 <? e).

Definition watch_0x1000 : reg_t -> reg_t -> access_type -> bool :=
  fun b e _ => (b <=? 0x1000) && (0x1000 <? e).

Definition addi_at_0x1000 : memory :=
  fun a => if a =? 0x1000 then 0x13 else 0.

Definition fetch_machine (interested : reg_t -> reg_t -> access_type -> bool) : machine :=
  machine_1 (Some (hart no_trigger 0)) empty_tlb 1 None false interested addi_at_0x1000.

(** ** Vocabulary of the statements *)

(** The virtual page number of an address, its slot in a TLB table, and
    the host pointer the fast path forms from the cached base. *)
Definition vpn_of (a : reg_t) : reg_t := Z.shiftr a PGSHIFT.
Definition slot (a : reg_t) : Z := vpn_of a mod TLB_ENTRIES.
Definition cached_ptr (s : machine) (a : reg_t) : Z := ptr_add (tlb_data s (slot a)) a.

Definition is_slow_path_call (c : call) : bool :=
  match c with
  | call_load_slow_path _ _ | call_store_slow_path _ _ _ | call_fetch_slow_path _ => true
  | _ => false
  end.

Definition is_trigger_match_call (c : call) : bool :=
  match c with
  | call_trigger_match _ _ _ => true
  | _ => false
  end.

(** What the specification says of a store in time-warp mode, in its own
    words: [record] is called with the width, the physical address of the
    target and the value found there, and then the new value is written.
    This follows the specification, to be compared with [store_func]. *)
Definition record_then_write
    (E : environment) (ty : int_type) (a : reg_t) (val : Z) (s : machine)
    : outcome unit * machine :=
  let p := cached_ptr s a in
  let previous := to_reg (deref ty p (mem s)) in
  let c := call_record (sizeof ty) (mem_to_addr E p) previous in
  match record E (sizeof ty) (mem_to_addr E p) previous s with
  | (Normal _, s1) =>
      (Normal tt, set_mem (assign ty p val (mem s1)) (set_calls (calls s ++ [c]) s1))
  | (Thrown e, s1) => (Thrown e, set_calls (calls s ++ [c]) s1)
  | (Undefined, s1) => (Undefined, set_calls (calls s ++ [c]) s1)
  end.

(** A condition on the collaborators: the slow paths and [record] raise no
    misaligned-load trap of their own. *)
Definition no_misaligned_load_from_collaborators (E : environment) : Prop :=
  (forall a l s b, fst (load_slow_path E a l s) <> Thrown (trap_load_address_misaligned b))
  /\ (forall a l v s b, fst (store_slow_path E a l v s) <> Thrown (trap_load_address_misaligned b))
  /\ (forall l a d s b, fst (record E l a d s) <> Thrown (trap_load_address_misaligned b)).



(** The registrations at a nonzero base. *)
Definition nonzero_bases (regs : list (reg_t * abstract_device_t))
    : list (reg_t * abstract_device_t) :=
  List.filter (fun r => negb (fst r =? 0)) regs.

(** A memory with a four-byte instruction whose upper halfword is
    negative as an [int16_t], at 0x1000. *)
Definition negative_insn_at_0x1000 : memory :=
  fun a => if a =? 0x1000 then 0x13
           else if a =? 0x1001 then 0x05
           else if a =? 0x1002 then 0xf0
           else if a =? 0x1003 then 0xff
           else 0.

(** A hart in machine mode, no translation ([VM_MBARE]). *)
Definition machine_mode_hart : processor_t :=
  {| prv := 3;
     mstatus := 0;
     dcsr_cause := 0;
     mcontrol_timing := fun _ => 0;
     trigger_match := no_trigger;
     decode_insn := fun bits => bits;
     timestamp := 0 |}.

(** The permission record of page 1 with the reserved encoding: writable
    but not readable. *)
Definition write_only_page_1 : tlb_t :=
  {| meta := fun i => if i =? 0 then 0x005 else 0;
     tags := fun i => if i =? 0 then 1 else wrap64 (-1);
     tag_map := {[ 1 := 0 ]} |}.

(** The instruction bits [refill_icache] assembles (mmu.h:181-196) when
    every halfword is found through a plain entry of the instruction TLB:
    the reads of the halfwords, without the state passing. *)
Definition assembled_bits (E : environment) (s : machine) (pc : reg_t) : insn_bits_t :=
  let half := fun (ty : int_type) (k : Z) =>
    to_reg (deref ty (cached_ptr s (wrap64 (pc + k))) (mem s)) in
  let insn0 := deref uint16 (cached_ptr s pc) (mem s) in
  let length := insn_length E insn0 in
  if length =? 4 then Z.lor insn0 (shl64 (half int16 2) 16)
  else if length =? 2 then to_reg (as_type int16 insn0)
  else if length =? 6 then
    Z.lor (Z.lor insn0 (shl64 (half int16 4) 32)) (shl64 (half uint16 2) 16)
  else
    Z.lor (Z.lor (Z.lor insn0 (shl64 (half int16 6) 48)) (shl64 (half uint16 4) 32))
          (shl64 (half uint16 2) 16).

(** The state [refill_icache] ends in (mmu.h:198-207), from the state [s]
    in which the bits were assembled and the pointer [iaddr] of the first
    halfword. *)
Definition refilled (E : environment) (pc : reg_t) (entry : Z) (s : machine)
    (pr : processor_t) (iaddr : Z) (length : Z) (bits : insn_bits_t) : machine :=
  let s3 := set_entry_data entry {| func := decode_insn pr bits; insn := bits |}
              (set_entry_tag entry pc s) in
  let paddr := mem_to_addr E iaddr in
  if tracer_interested_in_range s paddr (wrap64 (paddr + 1)) FETCH
  then set_calls (calls s ++ [call_trace paddr length FETCH])
         (set_entry_tag entry (wrap64 (-1)) s3)
  else s3.

(** The access fault of an access type, the permission table an access
    type consults, and a flag of a permission record. *)
Definition access_fault (type : access_type) (vaddr : reg_t) : exception :=
  match type with
  | FETCH => trap_instruction_access_fault vaddr
  | LOAD => trap_load_access_fault vaddr
  | STORE => trap_store_access_fault vaddr
  end.

Definition tlb_of (type : access_type) (s : machine) : tlb_t :=
  match type with FETCH => itlb s | _ => dtlb s end.

Definition has_flag (m flag : reg_t) : bool := nonzero (Z.land m flag).

(** * Properties *)

(** ** Arithmetic of addresses *)

Lemma misaligned_mod (ty : int_type) (a : reg_t) :
  misaligned ty a = negb (a mod sizeof ty =? 0).
Proof.
  unfold misaligned, nonzero.
  destruct ty; cbn [sizeof].
  1, 5: change (1 - 1) with (Z.ones 0).
  3, 6: change (2 - 1) with (Z.ones 1).
  5, 7: change (4 - 1) with (Z.ones 2).
  7, 8: change (8 - 1) with (Z.ones 3).
  all: rewrite Z.land_ones by lia; reflexivity.
Qed.

Lemma aligned_iff (ty : int_type) (a : reg_t) :
  misaligned ty a = false <-> a mod sizeof ty = 0.
Proof.
  rewrite misaligned_mod. destruct (Z.eqb_spec (a mod sizeof ty) 0); simpl; split; congruence.
Qed.

Lemma vpn_range (a : reg_t) :
  0 <= a < 2 ^ 64 -> 0 <= Z.shiftr a PGSHIFT < 2 ^ 52.
Proof.
  intros Ha. unfold PGSHIFT. rewrite Z.shiftr_div_pow2 by lia.
  split.
  - apply Z.div_pos; lia.
  - apply Z.div_lt_upper_bound; lia.
Qed.

(** A virtual page number never carries the trigger flag, so the two tag
    comparisons of the fast path exclude each other. *)
Lemma flagged_vpn_neq (a : reg_t) :
  0 <= a < 2 ^ 64 ->
  Z.lor (Z.shiftr a PGSHIFT) TLB_CHECK_TRIGGERS <> Z.shiftr a PGSHIFT.
Proof.
  intros Ha Heq. pose proof (vpn_range a Ha) as Hv.
  assert (Hb : Z.testbit (Z.lor (Z.shiftr a PGSHIFT) TLB_CHECK_TRIGGERS) 63 = true).
  { rewrite Z.lor_spec. unfold TLB_CHECK_TRIGGERS.
    rewrite Z.shiftl_1_l, Z.pow2_bits_true by lia. apply orb_true_r. }
  rewrite Heq in Hb.
  assert (Hc : Z.testbit (Z.shiftr a PGSHIFT) 63 = false).
  { apply Z.testbit_false; [lia |]. rewrite Z.div_small by lia. reflexivity. }
  congruence.
Qed.

(** The indices the code forms stay inside the arrays. *)
Lemma slot_in_table (a : reg_t) :
  0 <= slot a < TLB_ENTRIES.
Proof. apply Z.mod_pos_bound. reflexivity. Qed.

Lemma icache_index_in_table (E : environment) (a : reg_t) :
  0 <= icache_index E a < ICACHE_ENTRIES.
Proof. apply Z.mod_pos_bound. reflexivity. Qed.

(** ** Shape of the state after an update *)

Lemma set_matched_trigger_same (s : machine) :
  set_matched_trigger (matched_trigger s) s = s.
Proof. destruct s; reflexivity. Qed.

Lemma bind_normal_inv {A B} (m : M A) (k : A -> M B) (s s' : machine) (b : B) :
  bind m k s = (Normal b, s') ->
  exists a s1, m s = (Normal a, s1) /\ k a s1 = (Normal b, s').
Proof.
  unfold bind. destruct (m s) as [[x | e |] s1]; intros H.
  - exists x, s1. split; [reflexivity | exact H].
  - discriminate.
  - discriminate.
Qed.

(** ** The permission check *)

(** C3: [check_permission] is bypassed without condition.  For every
    virtual address and access type it returns at once: no fault is raised
    and the state is the one it was called in.  The statements below its
    first line are never reached: whatever statement follows the leading
    [return;], the function behaves the same. *)
Theorem check_permission_bypassed
    (E : environment) (vaddr : reg_t) (type : access_type) (s : machine) :
  check_permission E vaddr type s = (Normal tt, s)
  /\ forall rest : stmt,
       void_function (stmt_seq return_ rest) s = check_permission E vaddr type s.
Proof.
  split; [reflexivity | intros rest; reflexivity].
Qed.

(** ** Misaligned accesses *)

(** C4: an address that is not a multiple of the access width makes a load
    raise [trap_load_address_misaligned] and a store raise
    [trap_store_address_misaligned], each carrying the address.  The state
    after the fault is the state before it: no permission check, no TLB
    lookup and no translation took place, and no memory was written. *)
Theorem misaligned_access_faults
    (E : environment) (ty : int_type) (a : reg_t) (val : Z) (s : machine) :
  a mod sizeof ty <> 0 ->
  load_func E ty a s = (Thrown (trap_load_address_misaligned a), s)
  /\ store_func E ty a val s = (Thrown (trap_store_address_misaligned a), s).
Proof.
  intros Hmod.
  assert (Hmis : misaligned ty a = true).
  { rewrite misaligned_mod. destruct (Z.eqb_spec (a mod sizeof ty) 0); [contradiction | reflexivity]. }
  unfold load_func, store_func. rewrite Hmis. split; reflexivity.
Qed.

Lemma misaligned_access_faults_witness :
  load_func env0 uint32 0x1002 plain_hit
    = (Thrown (trap_load_address_misaligned 0x1002), plain_hit)
  /\ store_func env0 uint32 0x1002 5 plain_hit
    = (Thrown (trap_store_address_misaligned 0x1002), plain_hit).
Proof.
  apply (misaligned_access_faults env0 uint32 0x1002 5 plain_hit).
  vm_compute. discriminate.
Defined.

(** ** The fast path *)

Lemma when_timewarp_check_permission
    (E : environment) (a : reg_t) (type : access_type) (s : machine) :
  when_timewarp (check_permission E a type) s = (Normal tt, s).
Proof.
  unfold when_timewarp, bind, gets. destruct (timewarp s); reflexivity.
Qed.

(** The trigger check of a load or a store, case by case. *)
Lemma check_trigger_cases (op : trigger_operation_t) (a d : reg_t) (s : machine) :
  check_trigger op a d s =
    match matched_trigger s, proc s with
    | None, Some pr =>
        let m := trigger_match pr op a d in
        let s1 := set_calls (calls s ++ [call_trigger_match op a d]) s in
        let t := {| index := m; operation := op; address := a; data := d |} in
        if m =? -1 then (Normal tt, s1)
        else if mcontrol_timing pr m =? 0 then (Thrown (throw_trigger_matched t), s1)
        else (Thrown (throw_trigger_matched t), set_matched_trigger (Some t) s1)
    | _, _ => (Normal tt, s)
    end.
Proof.
  unfold check_trigger, trigger_exception, proc_trigger_match, log, bind, gets, modify, ret, throw.
  destruct (matched_trigger s) as [t0 |] eqn:Hmt; [reflexivity |].
  destruct (proc s) as [pr |] eqn:Hp.
  - cbn zeta. cbn [proc set_calls].
    destruct (trigger_match pr op a d =? -1).
    + f_equal. destruct s; cbn in *. subst. reflexivity.
    + destruct (mcontrol_timing pr (trigger_match pr op a d) =? 0); reflexivity.
  - f_equal. destruct s; cbn in *. subst. reflexivity.
Qed.

Lemma load_func_aligned (E : environment) (ty : int_type) (a : reg_t) (s : machine) :
  misaligned ty a = false ->
  load_func E ty a s =
    if tlb_load_tag s (slot a) =? vpn_of a then
      (Normal (deref ty (cached_ptr s a) (mem s)), s)
    else if tlb_load_tag s (slot a) =? Z.lor (vpn_of a) TLB_CHECK_TRIGGERS then
      (let* _ := check_trigger OPERATION_LOAD a (to_reg (deref ty (cached_ptr s a) (mem s))) in
       ret (deref ty (cached_ptr s a) (mem s))) s
    else
      (let* res := invoke (call_load_slow_path a (sizeof ty)) (load_slow_path E a (sizeof ty)) in
       ret (as_type ty res)) s.
Proof.
  intros Hal. unfold load_func. rewrite Hal.
  unfold bind at 1. rewrite when_timewarp_check_permission.
  unfold bind at 1, gets at 1. fold (vpn_of a). fold (slot a).
  destruct (tlb_load_tag s (slot a) =? vpn_of a); [reflexivity |].
  destruct (tlb_load_tag s (slot a) =? Z.lor (vpn_of a) TLB_CHECK_TRIGGERS); reflexivity.
Qed.

Lemma store_func_aligned
    (E : environment) (ty : int_type) (a : reg_t) (val : Z) (s : machine) :
  misaligned ty a = false ->
  store_func E ty a val s =
    if tlb_store_tag s (slot a) =? vpn_of a then
      store_at E ty a val s
    else if tlb_store_tag s (slot a) =? Z.lor (vpn_of a) TLB_CHECK_TRIGGERS then
      (let* _ := check_trigger OPERATION_STORE a (to_reg val) in store_at E ty a val) s
    else
      invoke (call_store_slow_path a (sizeof ty) val) (store_slow_path E a (sizeof ty) val) s.
Proof.
  intros Hal. unfold store_func. rewrite Hal.
  unfold bind at 1. rewrite when_timewarp_check_permission.
  unfold bind at 1, gets at 1. fold (vpn_of a). fold (slot a).
  destruct (tlb_store_tag s (slot a) =? vpn_of a); [reflexivity |].
  destruct (tlb_store_tag s (slot a) =? Z.lor (vpn_of a) TLB_CHECK_TRIGGERS); reflexivity.
Qed.

Lemma translate_insn_addr_cases (E : environment) (a : reg_t) (s : machine) :
  translate_insn_addr E a s =
    if tlb_insn_tag s (slot a) =? vpn_of a then
      (Normal (cached_ptr s a), s)
    else if tlb_insn_tag s (slot a) =? Z.lor (vpn_of a) TLB_CHECK_TRIGGERS then
      match proc s with
      | Some pr =>
          let h := deref uint16 (cached_ptr s a) (mem s) in
          let m := trigger_match pr OPERATION_EXECUTE a h in
          let s1 := set_calls (calls s ++ [call_trigger_match OPERATION_EXECUTE a h]) s in
          if 0 <=? m
          then (Thrown (throw_trigger_matched
                          {| index := m; operation := OPERATION_EXECUTE;
                             address := a; data := h |}), s1)
          else (Normal (cached_ptr s a), s1)
      | None => (Undefined, s)
      end
    else
      invoke (call_fetch_slow_path a) (fetch_slow_path E a) s.
Proof.
  unfold translate_insn_addr.
  unfold bind at 1. rewrite when_timewarp_check_permission.
  unfold bind at 1, gets at 1. fold (vpn_of a). fold (slot a).
  destruct (tlb_insn_tag s (slot a) =? vpn_of a); [reflexivity |].
  destruct (tlb_insn_tag s (slot a) =? Z.lor (vpn_of a) TLB_CHECK_TRIGGERS); [| reflexivity].
  unfold bind, gets, with_proc. fold (cached_ptr s a).
  destruct (proc s) as [pr |] eqn:Hp; [| reflexivity].
  unfold proc_trigger_match, log, bind, modify, ret, throw. cbn zeta.
  destruct (0 <=? trigger_match pr OPERATION_EXECUTE a (deref uint16 (cached_ptr s a) (mem s)));
    reflexivity.
Qed.

(** The raw store through the cached pointer (mmu.h:126-129): in time-warp
    mode [record] is called with the width, the physical address of the
    target and the value read there, and the write follows; otherwise the
    write is all there is. *)
Lemma store_at_cases
    (E : environment) (ty : int_type) (a : reg_t) (val : Z) (s : machine) :
  store_at E ty a val s =
    let p := cached_ptr s a in
    if timewarp s then
      match record E (sizeof ty) (mem_to_addr E p) (to_reg (deref ty p (mem s))) s with
      | (Normal _, s1) =>
          let s2 := set_calls
                      (calls s ++ [call_record (sizeof ty) (mem_to_addr E p)
                                     (to_reg (deref ty p (mem s)))]) s1 in
          (Normal tt, set_mem (assign ty p val (mem s2)) s2)
      | (Thrown e, s1) =>
          (Thrown e,
           set_calls (calls s ++ [call_record (sizeof ty) (mem_to_addr E p)
                                    (to_reg (deref ty p (mem s)))]) s1)
      | (Undefined, s1) =>
          (Undefined,
           set_calls (calls s ++ [call_record (sizeof ty) (mem_to_addr E p)
                                    (to_reg (deref ty p (mem s)))]) s1)
      end
    else (Normal tt, set_mem (assign ty p val (mem s)) s).
Proof.
  unfold store_at, bind, gets, modify, invoke, ret. fold (vpn_of a). fold (slot a).
  fold (cached_ptr s a). cbn zeta.
  destruct (timewarp s); [| reflexivity].
  destruct (record E (sizeof ty) (mem_to_addr E (cached_ptr s a))
              (to_reg (deref ty (cached_ptr s a) (mem s))) s) as [[u | e |] s1];
    reflexivity.
Qed.

Lemma store_at_calls
    (E : environment) (ty : int_type) (a : reg_t) (val : Z) (s : machine) :
  calls (snd (store_at E ty a val s))
    = calls s ++
      (if timewarp s
       then [call_record (sizeof ty) (mem_to_addr E (cached_ptr s a))
               (to_reg (deref ty (cached_ptr s a) (mem s)))]
       else []).
Proof.
  rewrite store_at_cases. cbn zeta.
  destruct (timewarp s); [| symmetry; apply app_nil_r].
  destruct (record E (sizeof ty) (mem_to_addr E (cached_ptr s a))
              (to_reg (deref ty (cached_ptr s a) (mem s))) s) as [[u | e |] s1];
    reflexivity.
Qed.

Lemma store_at_no_slow_path
    (E : environment) (ty : int_type) (a : reg_t) (val : Z) (s : machine) :
  List.filter is_slow_path_call (calls (snd (store_at E ty a val s)))
    = List.filter is_slow_path_call (calls s).
Proof.
  rewrite store_at_calls, List.filter_app.
  destruct (timewarp s); cbn; apply app_nil_r.
Qed.

Lemma store_at_no_trigger_match
    (E : environment) (ty : int_type) (a : reg_t) (val : Z) (s : machine) :
  List.filter is_trigger_match_call (calls (snd (store_at E ty a val s)))
    = List.filter is_trigger_match_call (calls s).
Proof.
  rewrite store_at_calls, List.filter_app.
  destruct (timewarp s); cbn; apply app_nil_r.
Qed.

(** A load, case by case on the tag of its slot. *)
Lemma load_func_dispatch (E : environment) (ty : int_type) (a : reg_t) (s : machine) :
  0 <= a < 2 ^ 64 ->
  misaligned ty a = false ->
  let d := deref ty (cached_ptr s a) (mem s) in
  let flag := Z.lor (vpn_of a) TLB_CHECK_TRIGGERS in
  (tlb_load_tag s (slot a) = vpn_of a ->
     load_func E ty a s = (Normal d, s))
  /\ (tlb_load_tag s (slot a) = flag ->
      load_func E ty a s =
        match matched_trigger s, proc s with
        | None, Some pr =>
            let m := trigger_match pr OPERATION_LOAD a (to_reg d) in
            let s1 := set_calls (calls s ++ [call_trigger_match OPERATION_LOAD a (to_reg d)]) s in
            let t := {| index := m; operation := OPERATION_LOAD;
                        address := a; data := to_reg d |} in
            if m =? -1 then (Normal d, s1)
            else if mcontrol_timing pr m =? 0 then (Thrown (throw_trigger_matched t), s1)
            else (Thrown (throw_trigger_matched t), set_matched_trigger (Some t) s1)
        | _, _ => (Normal d, s)
        end)
  /\ (tlb_load_tag s (slot a) <> vpn_of a -> tlb_load_tag s (slot a) <> flag ->
      load_func E ty a s =
        let (r, s') := load_slow_path E a (sizeof ty) s in
        (match r with
         | Normal res => Normal (as_type ty res)
         | Thrown e => Thrown e
         | Undefined => Undefined
         end,
         set_calls (calls s ++ [call_load_slow_path a (sizeof ty)]) s')).
Proof.
  intros Ha Hal d flag.
  pose proof (flagged_vpn_neq a Ha) as Hne. fold (vpn_of a) in Hne. fold flag in Hne.
  rewrite (load_func_aligned E ty a s Hal). fold d. fold flag.
  split; [| split].
  - intros Ht. rewrite Ht, Z.eqb_refl. reflexivity.
  - intros Ht. rewrite Ht.
    destruct (Z.eqb_spec flag (vpn_of a)) as [Heq | _]; [contradiction |].
    rewrite Z.eqb_refl.
    unfold bind. rewrite check_trigger_cases.
    destruct (matched_trigger s); [reflexivity |].
    destruct (proc s) as [pr |]; [| reflexivity].
    cbn zeta.
    destruct (trigger_match pr OPERATION_LOAD a (to_reg d) =? -1); [reflexivity |].
    destruct (mcontrol_timing pr (trigger_match pr OPERATION_LOAD a (to_reg d)) =? 0);
      reflexivity.
  - intros Hn1 Hn2.
    destruct (Z.eqb_spec (tlb_load_tag s (slot a)) (vpn_of a)); [contradiction |].
    destruct (Z.eqb_spec (tlb_load_tag s (slot a)) flag); [contradiction |].
    unfold bind, invoke, ret.
    destruct (load_slow_path E a (sizeof ty) s) as [[res | e |] s']; reflexivity.
Qed.

(** A store, case by case on the tag of its slot. *)
Lemma store_func_dispatch
    (E : environment) (ty : int_type) (a : reg_t) (val : Z) (s : machine) :
  0 <= a < 2 ^ 64 ->
  misaligned ty a = false ->
  let flag := Z.lor (vpn_of a) TLB_CHECK_TRIGGERS in
  (tlb_store_tag s (slot a) = vpn_of a ->
     store_func E ty a val s = store_at E ty a val s)
  /\ (tlb_store_tag s (slot a) = flag ->
      store_func E ty a val s =
        match matched_trigger s, proc s with
        | None, Some pr =>
            let m := trigger_match pr OPERATION_STORE a (to_reg val) in
            let s1 := set_calls (calls s ++ [call_trigger_match OPERATION_STORE a (to_reg val)]) s in
            let t := {| index := m; operation := OPERATION_STORE;
                        address := a; data := to_reg val |} in
            if m =? -1 then store_at E ty a val s1
            else if mcontrol_timing pr m =? 0 then (Thrown (throw_trigger_matched t), s1)
            else (Thrown (throw_trigger_matched t), set_matched_trigger (Some t) s1)
        | _, _ => store_at E ty a val s
        end)
  /\ (tlb_store_tag s (slot a) <> vpn_of a -> tlb_store_tag s (slot a) <> flag ->
      store_func E ty a val s =
        let (r, s') := store_slow_path E a (sizeof ty) val s in
        (r, set_calls (calls s ++ [call_store_slow_path a (sizeof ty) val]) s')).
Proof.
  intros Ha Hal flag.
  pose proof (flagged_vpn_neq a Ha) as Hne. fold (vpn_of a) in Hne. fold flag in Hne.
  rewrite (store_func_aligned E ty a val s Hal). fold flag.
  split; [| split].
  - intros Ht. rewrite Ht, Z.eqb_refl. reflexivity.
  - intros Ht. rewrite Ht.
    destruct (Z.eqb_spec flag (vpn_of a)) as [Heq | _]; [contradiction |].
    rewrite Z.eqb_refl.
    unfold bind. rewrite check_trigger_cases.
    destruct (matched_trigger s); [reflexivity |].
    destruct (proc s) as [pr |]; [| reflexivity].
    cbn zeta.
    destruct (trigger_match pr OPERATION_STORE a (to_reg val) =? -1); [reflexivity |].
    destruct (mcontrol_timing pr (trigger_match pr OPERATION_STORE a (to_reg val)) =? 0);
      reflexivity.
  - intros Hn1 Hn2.
    destruct (Z.eqb_spec (tlb_store_tag s (slot a)) (vpn_of a)); [contradiction |].
    destruct (Z.eqb_spec (tlb_store_tag s (slot a)) flag); [contradiction |].
    reflexivity.
Qed.

(** An instruction fetch, case by case on the tag of its slot. *)
Lemma translate_insn_addr_dispatch (E : environment) (a : reg_t) (s : machine) :
  0 <= a < 2 ^ 64 ->
  let p := cached_ptr s a in
  let h := deref uint16 p (mem s) in
  let flag := Z.lor (vpn_of a) TLB_CHECK_TRIGGERS in
  (tlb_insn_tag s (slot a) = vpn_of a ->
     translate_insn_addr E a s = (Normal p, s))
  /\ (tlb_insn_tag s (slot a) = flag ->
      translate_insn_addr E a s =
        match proc s with
        | Some pr =>
            let m := trigger_match pr OPERATION_EXECUTE a h in
            let s1 := set_calls (calls s ++ [call_trigger_match OPERATION_EXECUTE a h]) s in
            if 0 <=? m
            then (Thrown (throw_trigger_matched
                            {| index := m; operation := OPERATION_EXECUTE;
                               address := a; data := h |}), s1)
            else (Normal p, s1)
        | None => (Undefined, s)
        end)
  /\ (tlb_insn_tag s (slot a) <> vpn_of a -> tlb_insn_tag s (slot a) <> flag ->
      translate_insn_addr E a s =
        let (r, s') := fetch_slow_path E a s in
        (r, set_calls (calls s ++ [call_fetch_slow_path a]) s')).
Proof.
  intros Ha p h flag.
  pose proof (flagged_vpn_neq a Ha) as Hne. fold (vpn_of a) in Hne. fold flag in Hne.
  rewrite translate_insn_addr_cases. fold p. fold h. fold flag.
  split; [| split].
  - intros Ht. rewrite Ht, Z.eqb_refl. reflexivity.
  - intros Ht. rewrite Ht.
    destruct (Z.eqb_spec flag (vpn_of a)) as [Heq | _]; [contradiction |].
    rewrite Z.eqb_refl. reflexivity.
  - intros Hn1 Hn2.
    destruct (Z.eqb_spec (tlb_insn_tag s (slot a)) (vpn_of a)); [contradiction |].
    destruct (Z.eqb_spec (tlb_insn_tag s (slot a)) flag); [contradiction |].
    reflexivity.
Qed.

Lemma store_at_without_timewarp
    (E : environment) (ty : int_type) (a : reg_t) (val : Z) (s : machine) :
  timewarp s = false ->
  store_at E ty a val s = (Normal tt, set_mem (assign ty (cached_ptr s a) val (mem s)) s).
Proof.
  intros Htw. rewrite store_at_cases, Htw. reflexivity.
Qed.

(** C1, as the code has it.  For an aligned address (a fetch has no
    alignment check; take the width 1):
    - a tag equal to the VPN serves the access at [tlb_data[slot] + addr]
      and calls no slow path;
    - a tag equal to [VPN | TLB_CHECK_TRIGGERS] serves the access from the
      same pointer; a load or a store evaluates the trigger match against
      (address, data) only when no matched trigger is pending and a
      processor is attached, and then either completes (no match) or
      throws; a fetch evaluates it whenever a processor is attached;
    - any other tag hands the access to the slow path of its kind.
    The raw store [store_at] a hit performs calls no slow path, and is the
    plain write when time-warp mode is off. *)
Theorem tlb_dispatch
    (E : environment) (ty : int_type) (a : reg_t) (val : Z) (s : machine) :
  0 <= a < 2 ^ 64 ->
  misaligned ty a = false ->
  let p := cached_ptr s a in
  let d := deref ty p (mem s) in
  let h := deref uint16 p (mem s) in
  let flag := Z.lor (vpn_of a) TLB_CHECK_TRIGGERS in
  ((tlb_load_tag s (slot a) = vpn_of a ->
       load_func E ty a s = (Normal d, s))
    /\ (tlb_load_tag s (slot a) = flag ->
        load_func E ty a s =
          match matched_trigger s, proc s with
          | None, Some pr =>
              let m := trigger_match pr OPERATION_LOAD a (to_reg d) in
              let s1 := set_calls (calls s ++ [call_trigger_match OPERATION_LOAD a (to_reg d)]) s in
              let t := {| index := m; operation := OPERATION_LOAD;
                          address := a; data := to_reg d |} in
              if m =? -1 then (Normal d, s1)
              else if mcontrol_timing pr m =? 0 then (Thrown (throw_trigger_matched t), s1)
              else (Thrown (throw_trigger_matched t), set_matched_trigger (Some t) s1)
          | _, _ => (Normal d, s)
          end)
    /\ (tlb_load_tag s (slot a) <> vpn_of a -> tlb_load_tag s (slot a) <> flag ->
        load_func E ty a s =
          let (r, s') := load_slow_path E a (sizeof ty) s in
          (match r with
           | Normal res => Normal (as_type ty res)
           | Thrown e => Thrown e
           | Undefined => Undefined
           end,
           set_calls (calls s ++ [call_load_slow_path a (sizeof ty)]) s')))
  /\
  ((tlb_store_tag s (slot a) = vpn_of a ->
       store_func E ty a val s = store_at E ty a val s)
    /\ (tlb_store_tag s (slot a) = flag ->
        store_func E ty a val s =
          match matched_trigger s, proc s with
          | None, Some pr =>
              let m := trigger_match pr OPERATION_STORE a (to_reg val) in
              let s1 := set_calls (calls s ++ [call_trigger_match OPERATION_STORE a (to_reg val)]) s in
              let t := {| index := m; operation := OPERATION_STORE;
                          address := a; data := to_reg val |} in
              if m =? -1 then store_at E ty a val s1
              else if mcontrol_timing pr m =? 0 then (Thrown (throw_trigger_matched t), s1)
              else (Thrown (throw_trigger_matched t), set_matched_trigger (Some t) s1)
          | _, _ => store_at E ty a val s
          end)
    /\ (tlb_store_tag s (slot a) <> vpn_of a -> tlb_store_tag s (slot a) <> flag ->
        store_func E ty a val s =
          let (r, s') := store_slow_path E a (sizeof ty) val s in
          (r, set_calls (calls s ++ [call_store_slow_path a (sizeof ty) val]) s')))
  /\
  ((tlb_insn_tag s (slot a) = vpn_of a ->
       translate_insn_addr E a s = (Normal p, s))
    /\ (tlb_insn_tag s (slot a) = flag ->
        translate_insn_addr E a s =
          match proc s with
          | Some pr =>
              let m := trigger_match pr OPERATION_EXECUTE a h in
              let s1 := set_calls (calls s ++ [call_trigger_match OPERATION_EXECUTE a h]) s in
              if 0 <=? m
              then (Thrown (throw_trigger_matched
                              {| index := m; operation := OPERATION_EXECUTE;
                                 address := a; data := h |}), s1)
              else (Normal p, s1)
          | None => (Undefined, s)
          end)
    /\ (tlb_insn_tag s (slot a) <> vpn_of a -> tlb_insn_tag s (slot a) <> flag ->
        translate_insn_addr E a s =
          let (r, s') := fetch_slow_path E a s in
          (r, set_calls (calls s ++ [call_fetch_slow_path a]) s')))
  /\
  ((List.filter is_slow_path_call (calls (snd (store_at E ty a val s)))
       = List.filter is_slow_path_call (calls s))
    /\ (timewarp s = false ->
        store_at E ty a val s
          = (Normal tt, set_mem (assign ty (cached_ptr s a) val (mem s)) s))).
Proof.
  intros Ha Hal p d h flag.
  split; [| split; [| split]].
  - exact (load_func_dispatch E ty a s Ha Hal).
  - exact (store_func_dispatch E ty a val s Ha Hal).
  - exact (translate_insn_addr_dispatch E a s Ha).
  - split.
    + apply store_at_no_slow_path.
    + apply store_at_without_timewarp.
Qed.

Lemma tlb_dispatch_witness :
  load_func env0 uint8 0x1000 plain_hit = (Normal 0, plain_hit).
Proof.
  destruct (tlb_dispatch env0 uint8 0x1000 0 plain_hit) as [[Hload _] _].
  - vm_compute. split; [discriminate | reflexivity].
  - vm_compute. reflexivity.
  - apply Hload. vm_compute. reflexivity.
Defined.

(** C1 as stated fails on a load through an entry that carries
    [TLB_CHECK_TRIGGERS] while a matched trigger is pending: the load is
    served from the cached pointer, and no trigger match is evaluated,
    although the hart has a trigger that matches every access. *)
Lemma pending_trigger_load_not_evaluated :
  tlb_load_tag (flagged (Some (hart trigger_0 0)) (Some earlier_match)) (slot 0x1000)
    = Z.lor (vpn_of 0x1000) TLB_CHECK_TRIGGERS
  /\ misaligned uint8 0x1000 = false
  /\ fst (load_func env0 uint8 0x1000 (flagged (Some (hart trigger_0 0)) (Some earlier_match)))
     = Normal 0
  /\ List.filter is_trigger_match_call
       (calls (snd (load_func env0 uint8 0x1000
                      (flagged (Some (hart trigger_0 0)) (Some earlier_match)))))
     = [].
Proof.
  vm_compute. repeat split.
Qed.

(** ** Stores in time-warp mode *)

Lemma read_bytes_range (n : nat) (p : Z) (m : memory) :
  0 <= read_bytes n p m < 256 ^ Z.of_nat n.
Proof.
  revert p. induction n as [| n IH]; intros p.
  - cbn. lia.
  - rewrite Nat2Z.inj_succ, Z.pow_succ_r by lia. cbn [read_bytes].
    specialize (IH (p + 1)).
    pose proof (Z.mod_pos_bound (m p) 256 ltac:(lia)). lia.
Qed.

(** For the unsigned types the value handed on as a [reg_t] is the content
    of the bytes at the pointer. *)
Lemma deref_unsigned (ty : int_type) (p : Z) (m : memory) :
  is_signed ty = false ->
  to_reg (deref ty p m) = read_bytes (Z.to_nat (sizeof ty)) p m.
Proof.
  intros Hs. unfold to_reg, deref, as_type, wrap64. rewrite Hs. cbn [andb].
  pose proof (read_bytes_range (Z.to_nat (sizeof ty)) p m) as Hr.
  destruct ty; try discriminate Hs; cbn [sizeof] in *;
    change (8 * 1) with 8; change (8 * 2) with 16;
    change (8 * 4) with 32; change (8 * 8) with 64;
    set (u := read_bytes _ p m) in *.
  - change (256 ^ Z.of_nat (Z.to_nat 1)) with (2 ^ 8) in Hr.
    rewrite (Z.mod_small u (2 ^ 8)) by lia. apply Z.mod_small. lia.
  - change (256 ^ Z.of_nat (Z.to_nat 2)) with (2 ^ 16) in Hr.
    rewrite (Z.mod_small u (2 ^ 16)) by lia. apply Z.mod_small. lia.
  - change (256 ^ Z.of_nat (Z.to_nat 4)) with (2 ^ 32) in Hr.
    rewrite (Z.mod_small u (2 ^ 32)) by lia. apply Z.mod_small. lia.
  - change (256 ^ Z.of_nat (Z.to_nat 8)) with (2 ^ 64) in Hr.
    rewrite (Z.mod_small u (2 ^ 64)) by lia. apply Z.mod_small. lia.
Qed.

Lemma store_at_record_then_write
    (E : environment) (ty : int_type) (a : reg_t) (val : Z) (s : machine) :
  timewarp s = true ->
  store_at E ty a val s = record_then_write E ty a val s.
Proof.
  intros Htw. rewrite store_at_cases, Htw. unfold record_then_write. cbn zeta.
  destruct (record E (sizeof ty) (mem_to_addr E (cached_ptr s a))
              (to_reg (deref ty (cached_ptr s a) (mem s))) s) as [[u | e |] s1];
    reflexivity.
Qed.

(** C5: in time-warp mode a store that hits in the store TLB calls
    [record] with the width, the physical address of the target and the
    value found there, and writes the new value afterwards.  On an entry
    that carries [TLB_CHECK_TRIGGERS] this holds when the trigger check
    lets the store through; when it throws, nothing is recorded and
    nothing is written.  With [record] appending to the history, the entry
    it adds holds the bytes that were in memory before the store. *)
Theorem timewarp_store_records_previous_value
    (E : environment) (ty : int_type) (a : reg_t) (val : Z) (s : machine) :
  0 <= a < 2 ^ 64 ->
  misaligned ty a = false ->
  timewarp s = true ->
  let p := cached_ptr s a in
  (tlb_store_tag s (slot a) = vpn_of a ->
     store_func E ty a val s = record_then_write E ty a val s)
  /\ (tlb_store_tag s (slot a) = Z.lor (vpn_of a) TLB_CHECK_TRIGGERS ->
      let s1 := set_calls (calls s ++ [call_trigger_match OPERATION_STORE a (to_reg val)]) s in
      match matched_trigger s, proc s with
      | None, Some pr =>
          if trigger_match pr OPERATION_STORE a (to_reg val) =? -1
          then store_func E ty a val s = record_then_write E ty a val s1
          else (exists t, fst (store_func E ty a val s) = Thrown (throw_trigger_matched t))
               /\ mem (snd (store_func E ty a val s)) = mem s
               /\ traces (snd (store_func E ty a val s)) = traces s
      | _, _ => store_func E ty a val s = record_then_write E ty a val s
      end)
  /\ (forall pr : processor_t,
      record E = record_append ->
      proc s = Some pr ->
      is_signed ty = false ->
      tlb_store_tag s (slot a) = vpn_of a ->
      fst (store_func E ty a val s) = Normal tt
      /\ traces (snd (store_func E ty a val s))
         = traces s ++ [{| len := sizeof ty; addr := mem_to_addr E p;
                           trace_data := read_bytes (Z.to_nat (sizeof ty)) p (mem s) |}]
      /\ trace_clks (snd (store_func E ty a val s)) = trace_clks s ++ [timestamp pr]
      /\ mem (snd (store_func E ty a val s)) = assign ty p val (mem s)).
Proof.
  intros Ha Hal Htw p.
  destruct (store_func_dispatch E ty a val s Ha Hal) as [Hhit [Hflag _]].
  split; [| split].
  - intros Ht. rewrite (Hhit Ht). apply store_at_record_then_write, Htw.
  - intros Ht s1. specialize (Hflag Ht). cbv zeta in Hflag. fold s1 in Hflag.
    destruct (matched_trigger s).
    { rewrite Hflag. apply store_at_record_then_write, Htw. }
    destruct (proc s) as [pr |].
    2: { rewrite Hflag. apply store_at_record_then_write, Htw. }
    destruct (trigger_match pr OPERATION_STORE a (to_reg val) =? -1).
    { rewrite Hflag. apply store_at_record_then_write. exact Htw. }
    rewrite Hflag.
    destruct (mcontrol_timing pr (trigger_match pr OPERATION_STORE a (to_reg val)) =? 0);
      (split; [eexists; reflexivity | split; reflexivity]).
  - intros pr Hrec Hp Hs Ht.
    rewrite (Hhit Ht), (store_at_record_then_write E ty a val s Htw).
    unfold record_then_write. cbn zeta. rewrite Hrec.
    unfold record_append, with_proc, modify. rewrite Hp.
    fold p. rewrite (deref_unsigned ty p (mem s) Hs).
    cbn. repeat split.
Qed.

Lemma timewarp_store_records_previous_value_witness :
  let s := machine_1 (Some (hart no_trigger 0)) empty_tlb 1 None true not_interested
             (fun a => if a =? 0x1000 then 0x5a else 0) in
  fst (store_func env0 uint8 0x1000 0xab s) = Normal tt
  /\ traces (snd (store_func env0 uint8 0x1000 0xab s))
     = [{| len := 1; addr := 0x1000; trace_data := 0x5a |}]
  /\ mem (snd (store_func env0 uint8 0x1000 0xab s)) 0x1000 = 0xab.
Proof.
  intros s.
  destruct (timewarp_store_records_previous_value env0 uint8 0x1000 0xab s)
    as [_ [_ Hrec]].
  - vm_compute. split; [discriminate | reflexivity].
  - vm_compute. reflexivity.
  - vm_compute. reflexivity.
  - destruct (Hrec (hart no_trigger 0)) as [H1 [H2 [_ H4]]];
      [reflexivity | reflexivity | reflexivity | vm_compute; reflexivity |].
    split; [exact H1 | split].
    + rewrite H2. vm_compute. reflexivity.
    + rewrite H4. vm_compute. reflexivity.
Defined.

(** ** Permission enforcement on stores *)

(** The statements of [check_permission] below its leading [return;]
    refuse a store to a page whose permission record lacks [PTE_W],
    outside machine mode: they throw [trap_store_access_fault] with the
    virtual address. *)
Lemma check_permission_rest_refuses_store
    (E : environment) (vaddr : reg_t) (s : machine) (pr : processor_t) (i : Z) :
  let enc := encoding E in
  proc s = Some pr ->
  (dcsr_cause pr =? 0) && nonzero (get_field enc (mstatus pr) (MSTATUS_MPRV enc)) = false ->
  get_field enc (mstatus pr) (MSTATUS_VM enc) <> VM_MBARE enc ->
  prv pr <> PRV_M enc ->
  tag_map (dtlb s)
    !! vm_tag_mask E (get_field enc (mstatus pr) (MSTATUS_VM enc)) (vpn_of vaddr) = Some i ->
  Z.land (meta (dtlb s) i) (PTE_W enc) = 0 ->
  check_permission_rest E vaddr STORE s = (Thrown (trap_store_access_fault vaddr), s).
Proof.
  intros enc Hp Hmprv Hvm Hprv Hmap Hw.
  unfold check_permission_rest, with_proc. rewrite Hp. fold enc.
  rewrite Hmprv.
  destruct (Z.eqb_spec (get_field enc (mstatus pr) (MSTATUS_VM enc)) (VM_MBARE enc));
    [contradiction |].
  destruct (Z.eqb_spec (prv pr) (PRV_M enc)); [contradiction |].
  unfold bind, gets. fold (vpn_of vaddr). rewrite Hmap. cbn zeta.
  unfold nonzero at 7 8 9. rewrite Hw. cbn [Z.eqb negb].
  rewrite !andb_false_r. cbn [negb]. rewrite !orb_true_r. reflexivity.
Qed.

(** C2 fails on the code.  Time-warp mode is on, the hart is in
    supervisor mode under Sv39, and the permission record of page 1 is
    valid and readable but not writable.  The statements of
    [check_permission] below its first line would throw
    [trap_store_access_fault 0x1000]; the function returns before them, and
    the store to 0x1000 completes and changes memory. *)
Lemma store_to_read_only_page_not_faulted :
  let s := machine_1 (Some (hart no_trigger 0)) read_only_page_1 1 None true
             not_interested zero_memory in
  timewarp s = true
  /\ tag_map (dtlb s) !! vpn_of 0x1000 = Some 0
  /\ Z.land (meta (dtlb s) 0) (PTE_W riscv_encoding) = 0
  /\ check_permission_rest env0 0x1000 STORE s = (Thrown (trap_store_access_fault 0x1000), s)
  /\ check_permission env0 0x1000 STORE s = (Normal tt, s)
  /\ fst (store_func env0 uint8 0x1000 0xab s) = Normal tt
  /\ mem s 0x1000 = 0
  /\ mem (snd (store_func env0 uint8 0x1000 0xab s)) 0x1000 = 0xab.
Proof.
  intros s. split; [reflexivity |]. split; [reflexivity |]. split; [reflexivity |].
  split.
  { apply (check_permission_rest_refuses_store env0 0x1000 s (hart no_trigger 0) 0);
      vm_compute; congruence. }
  split; [reflexivity |].
  vm_compute. repeat split.
Qed.

(** ** Atomic memory operations *)

Lemma load_func_no_misaligned_load
    (E : environment) (ty : int_type) (a : reg_t) (s : machine) (b : reg_t) :
  misaligned ty a = false ->
  no_misaligned_load_from_collaborators E ->
  fst (load_func E ty a s) <> Thrown (trap_load_address_misaligned b).
Proof.
  intros Hal [Hl _]. rewrite (load_func_aligned E ty a s Hal).
  destruct (tlb_load_tag s (slot a) =? vpn_of a); [discriminate |].
  destruct (tlb_load_tag s (slot a) =? Z.lor (vpn_of a) TLB_CHECK_TRIGGERS).
  - unfold bind. rewrite check_trigger_cases.
    destruct (matched_trigger s); [discriminate |].
    destruct (proc s) as [pr |]; [| discriminate].
    cbn zeta.
    destruct (trigger_match pr OPERATION_LOAD a _ =? -1); [discriminate |].
    destruct (mcontrol_timing pr _ =? 0); discriminate.
  - unfold bind, invoke, ret. specialize (Hl a (sizeof ty) s b).
    destruct (load_slow_path E a (sizeof ty) s) as [[res | e |] s']; cbn in *;
      congruence.
Qed.

Lemma store_at_no_misaligned_load
    (E : environment) (ty : int_type) (a : reg_t) (val : Z) (s : machine) (b : reg_t) :
  no_misaligned_load_from_collaborators E ->
  fst (store_at E ty a val s) <> Thrown (trap_load_address_misaligned b).
Proof.
  intros [_ [_ Hr]]. rewrite store_at_cases. cbn zeta.
  destruct (timewarp s); [| discriminate].
  specialize (Hr (sizeof ty) (mem_to_addr E (cached_ptr s a))
                 (to_reg (deref ty (cached_ptr s a) (mem s))) s b).
  destruct (record E (sizeof ty) (mem_to_addr E (cached_ptr s a))
              (to_reg (deref ty (cached_ptr s a) (mem s))) s) as [[u | e |] s1];
    cbn in *; congruence.
Qed.

Lemma store_func_no_misaligned_load
    (E : environment) (ty : int_type) (a : reg_t) (val : Z) (s : machine) (b : reg_t) :
  misaligned ty a = false ->
  no_misaligned_load_from_collaborators E ->
  fst (store_func E ty a val s) <> Thrown (trap_load_address_misaligned b).
Proof.
  intros Hal HE. rewrite (store_func_aligned E ty a val s Hal).
  destruct (tlb_store_tag s (slot a) =? vpn_of a).
  { apply store_at_no_misaligned_load, HE. }
  destruct (tlb_store_tag s (slot a) =? Z.lor (vpn_of a) TLB_CHECK_TRIGGERS).
  - unfold bind. rewrite check_trigger_cases.
    destruct (matched_trigger s).
    { apply store_at_no_misaligned_load, HE. }
    destruct (proc s) as [pr |].
    2: { apply store_at_no_misaligned_load, HE. }
    cbn zeta.
    destruct (trigger_match pr OPERATION_STORE a _ =? -1).
    { apply store_at_no_misaligned_load, HE. }
    destruct (mcontrol_timing pr _ =? 0); discriminate.
  - destruct HE as [_ [Hs _]]. unfold invoke.
    specialize (Hs a (sizeof ty) val s b).
    destruct (store_slow_path E a (sizeof ty) val s) as [r s']. exact Hs.
Qed.

(** C6: an atomic memory operation at a misaligned address raises
    [trap_store_address_misaligned]; a [trap_load_access_fault] raised by
    its load is caught and raised again as [trap_store_access_fault] with
    the same address; no AMO ends in a [trap_load_access_fault], and, as
    long as the slow paths raise no misaligned-load trap of their own, none
    ends in a [trap_load_address_misaligned] either. *)
Theorem amo_faults_are_store_faults
    (E : environment) (ty : int_type) (a : reg_t) (f : Z -> Z) (s : machine) :
  (misaligned ty a = true ->
     amo_func E ty a f s = (Thrown (trap_store_address_misaligned a), s))
  /\ (forall (b : reg_t) (s' : machine),
        load_func E ty a s = (Thrown (trap_load_access_fault b), s') ->
        amo_func E ty a f s = (Thrown (trap_store_access_fault b), s'))
  /\ (forall b : reg_t, fst (amo_func E ty a f s) <> Thrown (trap_load_access_fault b))
  /\ (no_misaligned_load_from_collaborators E ->
      forall b : reg_t, fst (amo_func E ty a f s) <> Thrown (trap_load_address_misaligned b)).
Proof.
  split; [| split; [| split]].
  - intros Hmis. unfold amo_func. rewrite Hmis. reflexivity.
  - intros b s' Hload. unfold amo_func.
    destruct (misaligned ty a) eqn:Hmis.
    + unfold load_func in Hload. rewrite Hmis in Hload. discriminate.
    + unfold try_catch_load_access_fault, bind. rewrite Hload. reflexivity.
  - intros b. unfold amo_func.
    destruct (misaligned ty a); [discriminate |].
    unfold try_catch_load_access_fault.
    destruct ((let* lhs := load_func E ty a in
               let* _ := store_func E ty a (as_type ty (f lhs)) in ret lhs) s)
      as [[v | e |] s1]; [discriminate | | discriminate].
    destruct e; discriminate.
  - intros HE b. unfold amo_func.
    destruct (misaligned ty a) eqn:Hmis; [discriminate |].
    unfold try_catch_load_access_fault, bind.
    pose proof (load_func_no_misaligned_load E ty a s b Hmis HE) as Hl.
    destruct (load_func E ty a s) as [[lhs | e |] s1]; cbn [fst] in *.
    + pose proof (store_func_no_misaligned_load E ty a (as_type ty (f lhs)) s1 b Hmis HE)
        as Hs.
      destruct (store_func E ty a (as_type ty (f lhs)) s1) as [[u | e |] s2];
        cbn [fst] in *; [discriminate | | discriminate].
      destruct e; cbn; congruence.
    + destruct e; cbn; congruence.
    + discriminate.
Qed.

Lemma amo_faults_are_store_faults_witness :
  amo_func env0 uint32 0x1002 (fun x => x + 1) plain_hit
    = (Thrown (trap_store_address_misaligned 0x1002), plain_hit)
  /\ fst (amo_func env0 uint32 0x2000 (fun x => x + 1) plain_hit)
     = Thrown (trap_store_access_fault 0x2000)
  /\ fst (amo_func env0 uint32 0x2000 (fun x => x + 1) plain_hit)
     <> Thrown (trap_load_address_misaligned 0x2000).
Proof.
  split; [| split].
  - apply (amo_faults_are_store_faults env0 uint32 0x1002 (fun x => x + 1) plain_hit).
    vm_compute. reflexivity.
  - destruct (amo_faults_are_store_faults env0 uint32 0x2000 (fun x => x + 1) plain_hit)
      as [_ [Hre _]].
    rewrite (Hre 0x2000 (set_calls [call_load_slow_path 0x2000 4] plain_hit)); reflexivity.
  - apply (amo_faults_are_store_faults env0 uint32 0x2000 (fun x => x + 1) plain_hit).
    unfold no_misaligned_load_from_collaborators, env0, record_append, with_proc, modify, throw.
    cbn. repeat split; intros; try discriminate.
    destruct (proc s); discriminate.
Defined.

(** ** Triggers *)

(** C7, as the code has it.  With a processor attached,
    [trigger_exception] asks the processor for a match against (operation,
    address, data): no match (index -1) gives [NULL]; a match whose timing
    is 0 ("before") throws the [trigger_matched_t] at once; a match with
    another timing ("after") returns the object.  The caller stores what
    was returned in [matched_trigger] and, when it is an object, throws it
    at once: a store throws it before the value is written.  With [NULL]
    the access completes. *)
Theorem trigger_exception_cases
    (op : trigger_operation_t) (a d : reg_t) (s : machine) (pr : processor_t) :
  proc s = Some pr ->
  let m := trigger_match pr op a d in
  let t := {| index := m; operation := op; address := a; data := d |} in
  let s1 := set_calls (calls s ++ [call_trigger_match op a d]) s in
  (m = -1 -> trigger_exception op a d s = (Normal None, s1))
  /\ (m <> -1 -> mcontrol_timing pr m = 0 ->
      trigger_exception op a d s = (Thrown (throw_trigger_matched t), s1))
  /\ (m <> -1 -> mcontrol_timing pr m <> 0 ->
      trigger_exception op a d s = (Normal (Some t), s1))
  /\ (matched_trigger s = None ->
      (m = -1 -> check_trigger op a d s = (Normal tt, s1))
      /\ (m <> -1 -> mcontrol_timing pr m = 0 ->
          check_trigger op a d s = (Thrown (throw_trigger_matched t), s1))
      /\ (m <> -1 -> mcontrol_timing pr m <> 0 ->
          check_trigger op a d s
            = (Thrown (throw_trigger_matched t), set_matched_trigger (Some t) s1)))
  /\ (forall (E : environment) (ty : int_type) (val : Z),
      op = OPERATION_STORE -> d = to_reg val ->
      0 <= a < 2 ^ 64 -> misaligned ty a = false ->
      matched_trigger s = None ->
      tlb_store_tag s (slot a) = Z.lor (vpn_of a) TLB_CHECK_TRIGGERS ->
      (m = -1 -> store_func E ty a val s = store_at E ty a val s1)
      /\ (m <> -1 ->
          fst (store_func E ty a val s) = Thrown (throw_trigger_matched t)
          /\ mem (snd (store_func E ty a val s)) = mem s)).
Proof.
  intros Hp m t s1.
  assert (Hte : trigger_exception op a d s =
                if m =? -1 then (Normal None, s1)
                else if mcontrol_timing pr m =? 0
                     then (Thrown (throw_trigger_matched t), s1)
                     else (Normal (Some t), s1)).
  { unfold trigger_exception, proc_trigger_match, log, bind, gets, modify, ret, throw.
    rewrite Hp. cbn [proc set_calls]. fold m. fold s1. fold t.
    destruct (m =? -1); [reflexivity |].
    destruct (mcontrol_timing pr m =? 0); reflexivity. }
  assert (Hct : matched_trigger s = None ->
                check_trigger op a d s =
                if m =? -1 then (Normal tt, s1)
                else if mcontrol_timing pr m =? 0
                     then (Thrown (throw_trigger_matched t), s1)
                     else (Thrown (throw_trigger_matched t), set_matched_trigger (Some t) s1)).
  { intros Hmt. rewrite check_trigger_cases, Hmt, Hp. reflexivity. }
  split; [| split; [| split; [| split]]].
  - intros Hm. rewrite Hte, Hm. reflexivity.
  - intros Hm Ht. rewrite Hte, Ht.
    destruct (Z.eqb_spec m (-1)); [contradiction | reflexivity].
  - intros Hm Ht. rewrite Hte.
    destruct (Z.eqb_spec m (-1)); [contradiction |].
    destruct (Z.eqb_spec (mcontrol_timing pr m) 0); [contradiction | reflexivity].
  - intros Hmt. specialize (Hct Hmt). split; [| split].
    + intros Hm. rewrite Hct, Hm. reflexivity.
    + intros Hm Ht. rewrite Hct, Ht.
      destruct (Z.eqb_spec m (-1)); [contradiction | reflexivity].
    + intros Hm Ht. rewrite Hct.
      destruct (Z.eqb_spec m (-1)); [contradiction |].
      destruct (Z.eqb_spec (mcontrol_timing pr m) 0); [contradiction | reflexivity].
  - intros E ty val Hop Hd Ha Hal Hmt Htag.
    destruct (store_func_dispatch E ty a val s Ha Hal) as [_ [Hflag _]].
    specialize (Hflag Htag). cbv zeta in Hflag. rewrite Hmt, Hp in Hflag.
    subst op d. fold m in Hflag. fold s1 in Hflag. fold t in Hflag.
    split.
    + intros Hm. rewrite Hflag, Hm. reflexivity.
    + intros Hm. rewrite Hflag.
      destruct (Z.eqb_spec m (-1)); [contradiction |].
      destruct (mcontrol_timing pr m =? 0); split; reflexivity.
Qed.

Lemma trigger_exception_cases_witness :
  trigger_exception OPERATION_STORE 0x1000 0xab (flagged (Some (hart trigger_0 1)) None)
  = (Normal (Some {| index := 0; operation := OPERATION_STORE;
                     address := 0x1000; data := 0xab |}),
     set_calls [call_trigger_match OPERATION_STORE 0x1000 0xab]
       (flagged (Some (hart trigger_0 1)) None)).
Proof.
  destruct (trigger_exception_cases OPERATION_STORE 0x1000 0xab
              (flagged (Some (hart trigger_0 1)) None) (hart trigger_0 1) eq_refl)
    as [_ [_ [Hafter _]]].
  apply Hafter; vm_compute; discriminate.
Defined.

(** C7 as stated fails on a store whose trigger has timing 1 ("after"):
    the object [trigger_exception] returns is thrown by the caller while
    the store has not taken place; the byte at the target is the old one. *)
Lemma after_timing_store_thrown_before_write :
  mcontrol_timing (hart trigger_0 1) (trigger_match (hart trigger_0 1)
                                        OPERATION_STORE 0x1000 0xab) = 1
  /\ fst (trigger_exception OPERATION_STORE 0x1000 0xab
            (flagged (Some (hart trigger_0 1)) None))
     = Normal (Some {| index := 0; operation := OPERATION_STORE;
                       address := 0x1000; data := 0xab |})
  /\ fst (store_func env0 uint8 0x1000 0xab (flagged (Some (hart trigger_0 1)) None))
     = Thrown (throw_trigger_matched
                 {| index := 0; operation := OPERATION_STORE;
                    address := 0x1000; data := 0xab |})
  /\ mem (snd (store_func env0 uint8 0x1000 0xab (flagged (Some (hart trigger_0 1)) None)))
       0x1000 = 0
  /\ mem (flagged (Some (hart trigger_0 1)) None) 0x1000 = 0.
Proof.
  vm_compute. repeat split.
Qed.

(** C8, as the code has it.  While a matched trigger is pending, a load
    and a store through an entry that carries [TLB_CHECK_TRIGGERS] skip the
    evaluation: the load returns the data in the state it was called in,
    the store is the raw store, no call of [trigger_match] is made and the
    pending trigger stays.  An instruction fetch does not consult the
    pending trigger: it evaluates the match on every such access. *)
Theorem pending_trigger_skips_evaluation
    (E : environment) (ty : int_type) (a : reg_t) (val : Z) (s : machine)
    (t0 : trigger_matched_t) :
  0 <= a < 2 ^ 64 ->
  misaligned ty a = false ->
  matched_trigger s = Some t0 ->
  let flag := Z.lor (vpn_of a) TLB_CHECK_TRIGGERS in
  (tlb_load_tag s (slot a) = flag ->
     load_func E ty a s = (Normal (deref ty (cached_ptr s a) (mem s)), s))
  /\ (tlb_store_tag s (slot a) = flag ->
      store_func E ty a val s = store_at E ty a val s
      /\ List.filter is_trigger_match_call (calls (snd (store_func E ty a val s)))
         = List.filter is_trigger_match_call (calls s)
      /\ (timewarp s = false -> matched_trigger (snd (store_func E ty a val s)) = Some t0))
  /\ (tlb_insn_tag s (slot a) = flag ->
      forall pr : processor_t, proc s = Some pr ->
      calls (snd (translate_insn_addr E a s))
        = calls s ++ [call_trigger_match OPERATION_EXECUTE a
                        (deref uint16 (cached_ptr s a) (mem s))]
      /\ (0 <= trigger_match pr OPERATION_EXECUTE a (deref uint16 (cached_ptr s a) (mem s)) ->
          fst (translate_insn_addr E a s)
            = Thrown (throw_trigger_matched
                        {| index := trigger_match pr OPERATION_EXECUTE a
                                      (deref uint16 (cached_ptr s a) (mem s));
                           operation := OPERATION_EXECUTE; address := a;
                           data := deref uint16 (cached_ptr s a) (mem s) |}))).
Proof.
  intros Ha Hal Hmt flag.
  destruct (load_func_dispatch E ty a s Ha Hal) as [_ [Hl _]].
  destruct (store_func_dispatch E ty a val s Ha Hal) as [_ [Hs _]].
  destruct (translate_insn_addr_dispatch E a s Ha) as [_ [Hf _]].
  fold flag in Hl, Hs, Hf. cbv zeta in Hl, Hs, Hf. rewrite Hmt in Hl, Hs.
  split; [exact Hl | split].
  - intros Ht. specialize (Hs Ht). split; [exact Hs | split].
    + rewrite Hs. apply store_at_no_trigger_match.
    + intros Htw. rewrite Hs, (store_at_without_timewarp E ty a val s Htw). exact Hmt.
  - intros Ht pr Hp. specialize (Hf Ht). rewrite Hp in Hf. rewrite Hf. split.
    + destruct (0 <=? trigger_match pr OPERATION_EXECUTE a _); reflexivity.
    + intros Hm. apply Z.leb_le in Hm. rewrite Hm. reflexivity.
Qed.

Lemma pending_trigger_skips_evaluation_witness :
  load_func env0 uint8 0x1000 (flagged (Some (hart trigger_0 0)) (Some earlier_match))
  = (Normal 0, flagged (Some (hart trigger_0 0)) (Some earlier_match)).
Proof.
  destruct (pending_trigger_skips_evaluation env0 uint8 0x1000 0
              (flagged (Some (hart trigger_0 0)) (Some earlier_match)) earlier_match)
    as [Hload _].
  - vm_compute. split; [discriminate | reflexivity].
  - vm_compute. reflexivity.
  - reflexivity.
  - apply Hload. vm_compute. reflexivity.
Defined.

(** C8 as stated fails on an instruction fetch: with a matched trigger
    pending, a fetch through an entry that carries [TLB_CHECK_TRIGGERS]
    still evaluates the trigger match, and throws on a match. *)
Lemma pending_trigger_fetch_evaluated :
  matched_trigger (flagged (Some (hart trigger_0 0)) (Some earlier_match))
    = Some earlier_match
  /\ tlb_insn_tag (flagged (Some (hart trigger_0 0)) (Some earlier_match)) (slot 0x1000)
     = Z.lor (vpn_of 0x1000) TLB_CHECK_TRIGGERS
  /\ calls (snd (translate_insn_addr env0 0x1000
                   (flagged (Some (hart trigger_0 0)) (Some earlier_match))))
     = [call_trigger_match OPERATION_EXECUTE 0x1000 0]
  /\ fst (translate_insn_addr env0 0x1000
            (flagged (Some (hart trigger_0 0)) (Some earlier_match)))
     = Thrown (throw_trigger_matched
                 {| index := 0; operation := OPERATION_EXECUTE;
                    address := 0x1000; data := 0 |}).
Proof.
  vm_compute. repeat split.
Qed.

(** ** The instruction cache *)

Lemma bind_gets {A B} (f : machine -> A) (k : A -> M B) (s : machine) :
  bind (gets f) k s = k (f s) s.
Proof. reflexivity. Qed.

Lemma translate_insn_addr_hit (E : environment) (a : reg_t) (s : machine) :
  tlb_insn_tag s (slot a) = vpn_of a ->
  translate_insn_addr E a s = (Normal (cached_ptr s a), s).
Proof.
  intros Ht. rewrite translate_insn_addr_cases, Ht, Z.eqb_refl. reflexivity.
Qed.

Lemma fetch_half_hit (E : environment) (ty : int_type) (a : reg_t) (s : machine) :
  tlb_insn_tag s (slot a) = vpn_of a ->
  fetch_half E ty a s = (Normal (to_reg (deref ty (cached_ptr s a) (mem s))), s).
Proof.
  intros Ht. unfold fetch_half, bind. rewrite (translate_insn_addr_hit E a s Ht).
  reflexivity.
Qed.

(** A refill whose halfwords all hit in the instruction TLB completes. *)
Lemma refill_icache_completes
    (E : environment) (pc : reg_t) (entry : Z) (s : machine) (pr : processor_t) :
  proc s = Some pr ->
  tlb_insn_tag s (slot pc) = vpn_of pc ->
  (forall k, In k [2; 4; 6] ->
     tlb_insn_tag s (slot (wrap64 (pc + k))) = vpn_of (wrap64 (pc + k))) ->
  exists s', refill_icache E pc entry s = (Normal entry, s').
Proof.
  intros Hp H0 Hk.
  pose proof (Hk 2 ltac:(cbn; tauto)) as H2.
  pose proof (Hk 4 ltac:(cbn; tauto)) as H4.
  pose proof (Hk 6 ltac:(cbn; tauto)) as H6.
  unfold refill_icache.
  unfold bind at 1. rewrite (translate_insn_addr_hit E pc s H0).
  rewrite bind_gets. cbv zeta.
  set (insn0 := deref uint16 (cached_ptr s pc) (mem s)).
  assert (Hbits : exists bits,
    (if insn_length E insn0 =? 4
     then let* h2 := fetch_half E int16 (wrap64 (pc + 2)) in
          ret (Z.lor insn0 (shl64 h2 16))
     else if insn_length E insn0 =? 2
     then ret (to_reg (as_type int16 insn0))
     else if insn_length E insn0 =? 6
     then let* h4 := fetch_half E int16 (wrap64 (pc + 4)) in
          let* h2 := fetch_half E uint16 (wrap64 (pc + 2)) in
          ret (Z.lor (Z.lor insn0 (shl64 h4 32)) (shl64 h2 16))
     else let* h6 := fetch_half E int16 (wrap64 (pc + 6)) in
          let* h4 := fetch_half E uint16 (wrap64 (pc + 4)) in
          let* h2 := fetch_half E uint16 (wrap64 (pc + 2)) in
          ret (Z.lor (Z.lor (Z.lor insn0 (shl64 h6 48)) (shl64 h4 32)) (shl64 h2 16))) s
    = (Normal bits, s)).
  { destruct (insn_length E insn0 =? 4).
    { unfold bind. rewrite (fetch_half_hit E int16 _ s H2). eexists. reflexivity. }
    destruct (insn_length E insn0 =? 2).
    { eexists. reflexivity. }
    destruct (insn_length E insn0 =? 6).
    { unfold bind. rewrite (fetch_half_hit E int16 _ s H4).
      rewrite (fetch_half_hit E uint16 _ s H2). eexists. reflexivity. }
    unfold bind. rewrite (fetch_half_hit E int16 _ s H6).
    rewrite (fetch_half_hit E uint16 _ s H4).
    rewrite (fetch_half_hit E uint16 _ s H2). eexists. reflexivity. }
  destruct Hbits as [bits Hbits].
  unfold bind at 1. rewrite Hbits.
  unfold bind, with_proc, modify, gets, log, ret. rewrite Hp.
  cbn [tracer_interested_in_range set_entry_data set_entry_tag set_icache].
  destruct (tracer_interested_in_range s _ _ FETCH); eexists; reflexivity.
Qed.

(** C9, as the code has it.  A refill of the slot of [pc] that completes
    has translated the first halfword to a host pointer; the tracer is
    asked about the one byte at the physical address of that first
    halfword, and about no other halfword.  If it is interested, the tag of
    the entry is the sentinel -1, a trace event for (that address, the
    instruction length, FETCH) is the last call made, and the next
    [access_icache pc] refills again (for every [pc] but the sentinel
    itself); otherwise the tag is [pc] and the next [access_icache pc]
    returns the entry and leaves the state as it is.  A refill whose
    halfwords all hit in the instruction TLB, with a processor attached,
    does complete. *)
Theorem refill_icache_tag (E : environment) (pc : reg_t) (s : machine) :
  (forall (s' : machine) (e : Z),
     refill_icache E pc (icache_index E pc) s = (Normal e, s') ->
     exists (iaddr : Z) (s1 : machine),
       translate_insn_addr E pc s = (Normal iaddr, s1)
       /\ e = icache_index E pc
       /\ let paddr := mem_to_addr E iaddr in
          let length := insn_length E (deref uint16 iaddr (mem s1)) in
          if tracer_interested_in_range s' paddr (wrap64 (paddr + 1)) FETCH
          then tag (icache s' e) = wrap64 (-1)
               /\ (exists l, calls s' = l ++ [call_trace paddr length FETCH])
               /\ (pc <> wrap64 (-1) ->
                   access_icache E pc s' = refill_icache E pc (icache_index E pc) s')
          else tag (icache s' e) = pc
               /\ access_icache E pc s' = (Normal e, s'))
  /\ (forall pr : processor_t,
        proc s = Some pr ->
        tlb_insn_tag s (slot pc) = vpn_of pc ->
        (forall k, In k [2; 4; 6] ->
           tlb_insn_tag s (slot (wrap64 (pc + k))) = vpn_of (wrap64 (pc + k))) ->
        exists s', refill_icache E pc (icache_index E pc) s
                   = (Normal (icache_index E pc), s')).
Proof.
  split; [| intros pr; apply refill_icache_completes].
  intros s' e H. unfold refill_icache in H.
  apply bind_normal_inv in H. destruct H as (iaddr & s1 & Htr & H).
  rewrite bind_gets in H. cbv zeta in H.
  apply bind_normal_inv in H. destruct H as (bits & s2 & _ & H).
  apply bind_normal_inv in H. destruct H as (fetch & s3 & Hfetch & H).
  unfold with_proc in Hfetch. destruct (proc s2) as [pr |]; [| discriminate].
  unfold ret in Hfetch. injection Hfetch as Hf Hs3. subst s3.
  exists iaddr, s1. split; [exact Htr |].
  unfold bind, modify, gets, log, ret in H. cbn [tracer_interested_in_range set_entry_data
    set_entry_tag set_icache] in H.
  destruct (tracer_interested_in_range s2 (mem_to_addr E iaddr)
              (wrap64 (mem_to_addr E iaddr + 1)) FETCH) eqn:Hint;
    injection H as He Hs'; subst e s'; (split; [reflexivity |]); cbv zeta;
    cbn [tracer_interested_in_range set_calls set_icache set_entry_tag set_entry_data];
    rewrite Hint.
  - split; [| split].
    + cbn. rewrite Z.eqb_refl. reflexivity.
    + eexists. reflexivity.
    + intros Hpc. unfold access_icache at 1. rewrite bind_gets.
      cbn [icache set_calls set_icache set_entry_tag set_entry_data tag].
      rewrite Z.eqb_refl. cbn [tag].
      destruct (Z.eqb_spec (wrap64 (-1)) pc) as [Heq | _]; [congruence | reflexivity].
  - split.
    + cbn. rewrite Z.eqb_refl. reflexivity.
    + unfold access_icache. rewrite bind_gets.
      cbn [icache set_calls set_icache set_entry_tag set_entry_data tag].
      rewrite Z.eqb_refl. cbn [tag]. rewrite Z.eqb_refl. reflexivity.
Qed.

Lemma refill_icache_tag_witness :
  tag (icache (snd (refill_icache env0 0x1000 (icache_index env0 0x1000)
                      (fetch_machine watch_0x1000)))
         (icache_index env0 0x1000))
  = wrap64 (-1).
Proof.
  destruct (refill_icache_tag env0 0x1000 (fetch_machine watch_0x1000)) as [Hres _].
  destruct (Hres (snd (refill_icache env0 0x1000 (icache_index env0 0x1000)
                         (fetch_machine watch_0x1000)))
                 (icache_index env0 0x1000))
    as (iaddr & s1 & Htr & _ & Hrest).
  - vm_compute. reflexivity.
  - vm_compute in Htr. injection Htr as Hi Hs1. subst iaddr s1.
    cbv zeta in Hrest.
    assert (Hint : tracer_interested_in_range
                     (snd (refill_icache env0 0x1000 (icache_index env0 0x1000)
                             (fetch_machine watch_0x1000)))
                     (mem_to_addr env0 4096) (wrap64 (mem_to_addr env0 4096 + 1)) FETCH
                   = true) by (vm_compute; reflexivity).
    rewrite Hint in Hrest. exact (proj1 Hrest).
Defined.

(** C9 as stated fails on a four-byte instruction whose second halfword
    lies at a physical address the tracer watches while its first halfword
    does not: the refill leaves the tag at [pc], emits no trace event, and
    the next [access_icache pc] hits. *)
Lemma traced_second_halfword_cached :
  insn_length env0 (deref uint16 0x1000 (mem (fetch_machine watch_0x1002))) = 4
  /\ tracer_interested_in_range (fetch_machine watch_0x1002) 0x1002 0x1003 FETCH = true
  /\ fst (refill_icache env0 0x1000 (icache_index env0 0x1000) (fetch_machine watch_0x1002))
     = Normal (icache_index env0 0x1000)
  /\ tag (icache (snd (refill_icache env0 0x1000 (icache_index env0 0x1000)
                         (fetch_machine watch_0x1002)))
            (icache_index env0 0x1000))
     = 0x1000
  /\ calls (snd (refill_icache env0 0x1000 (icache_index env0 0x1000)
                   (fetch_machine watch_0x1002)))
     = []
  /\ access_icache env0 0x1000
       (snd (refill_icache env0 0x1000 (icache_index env0 0x1000)
               (fetch_machine watch_0x1002)))
     = (Normal (icache_index env0 0x1000),
        snd (refill_icache env0 0x1000 (icache_index env0 0x1000)
               (fetch_machine watch_0x1002))).
Proof.
  vm_compute. repeat split.
Qed.

(** ** The device bus *)

(** C10 fails on the code at base address 0.  A UART is registered at
    base 0, so for the address 4 it is the device with the greatest base
    not exceeding the address, and its load at offset 4 succeeds; the bus
    finds no device and returns [false].  With a device registered at
    0x1000 only and the address 0, no base is at or below the address, yet
    the bus selects that device, at offset 2^64 - 0x1000. *)
Lemma device_at_base_zero_not_found :
  option_map fst (greatest_base_le 4 [(0, uart_dev_t true)]) = Some 0
  /\ load (uart_dev_t true) (4 - 0) 1 [7] = (true, [255])
  /\ bus_t_load (bus_t_add_device 0 (uart_dev_t true) {| devices := [] |}) 4 1 [7]
     = (false, [7])
  /\ bus_t_store (bus_t_add_device 0 (uart_dev_t true) {| devices := [] |}) 4 1 [7]
     = (false, [])
  /\ greatest_base_le 0 [(0x1000, uart_dev_t true)] = None
  /\ option_map fst
       (lower_bound (neg64 0)
          (devices (bus_t_add_device 0x1000 (uart_dev_t true) {| devices := [] |})))
     = Some (neg64 0x1000).
Proof.
  vm_compute. repeat split.
Qed.

Lemma lower_bound_map_assign {V : Type} (k k' : reg_t) (v : V) (m : list (reg_t * V)) :
  lower_bound k (map_assign k' v m) =
    match lower_bound k m with
    | Some (k1, v1) => if (k <=? k') && (k' <=? k1) then Some (k', v) else Some (k1, v1)
    | None => if k <=? k' then Some (k', v) else None
    end.
Proof.
  induction m as [| [k0 v0] r IH]; cbn [map_assign lower_bound].
  - reflexivity.
  - destruct (Z.ltb_spec k' k0) as [Hlt | Hge].
    + cbn [lower_bound].
      destruct (Z.leb_spec k k') as [Hk | Hk].
      * destruct (Z.leb_spec k k0); [| lia]. cbn [andb].
        destruct (Z.leb_spec k' k0); [reflexivity | lia].
      * cbn [andb]. destruct (k <=? k0); [reflexivity |].
        destruct (lower_bound k r) as [[k1 v1] |]; reflexivity.
    + destruct (Z.eqb_spec k' k0) as [Heq | Hne].
      * subst k0. cbn [lower_bound].
        destruct (Z.leb_spec k k') as [Hk | Hk].
        -- cbn [andb]. rewrite Z.leb_refl. reflexivity.
        -- cbn [andb]. destruct (lower_bound k r) as [[k1 v1] |]; reflexivity.
      * cbn [lower_bound].
        destruct (Z.leb_spec k k0) as [Hk | Hk].
        -- destruct (Z.leb_spec k' k0); [lia |]. rewrite andb_false_r. reflexivity.
        -- exact IH.
Qed.

Lemma greatest_base_le_In (a : reg_t) (regs : list (reg_t * abstract_device_t))
    (b : reg_t) (d : abstract_device_t) :
  greatest_base_le a regs = Some (b, d) -> In (b, d) regs /\ b <= a.
Proof.
  revert b d. induction regs as [| [b0 d0] r IH]; intros b d H; cbn in H.
  - discriminate.
  - destruct (greatest_base_le a r) as [[b' d'] |].
    + destruct (Z.leb_spec b0 a); cbn [andb] in H.
      * destruct (b' <=? b0); injection H as <- <-.
        -- split; [left; reflexivity | assumption].
        -- destruct (IH b' d' eq_refl). split; [right; assumption | assumption].
      * injection H as <- <-.
        destruct (IH b' d' eq_refl). split; [right; assumption | assumption].
    + destruct (Z.leb_spec b0 a); [| discriminate].
      injection H as <- <-. split; [left; reflexivity | assumption].
Qed.

Lemma neg64_nonzero (b : reg_t) : 1 <= b < 2 ^ 64 -> neg64 b = 2 ^ 64 - b.
Proof.
  intros Hb. unfold neg64, wrap64.
  replace (- b) with ((2 ^ 64 - b) + (-1) * 2 ^ 64) by lia.
  rewrite Z.mod_add by lia. apply Z.mod_small. lia.
Qed.

(** Away from zero the lookup of the bus and the words of the
    specification agree. *)
Lemma lower_bound_greatest_base (a : reg_t) (regs : list (reg_t * abstract_device_t)) :
  1 <= a < 2 ^ 64 ->
  Forall (fun r => 1 <= fst r < 2 ^ 64) regs ->
  lower_bound (neg64 a) (devices (bus_of regs))
    = option_map (fun r => (neg64 (fst r), snd r)) (greatest_base_le a regs).
Proof.
  intros Ha Hall. induction Hall as [| [b d] r Hb Hr IH].
  - reflexivity.
  - cbn [bus_of fold_right bus_t_add_device devices fst snd] in *.
    fold (bus_of r). rewrite lower_bound_map_assign, IH.
    cbn [greatest_base_le].
    rewrite (neg64_nonzero a Ha), (neg64_nonzero b Hb).
    destruct (greatest_base_le a r) as [[b' d'] |] eqn:Hg; cbn [option_map fst snd].
    + destruct (greatest_base_le_In a r b' d' Hg) as [Hin _].
      rewrite List.Forall_forall in Hr. specialize (Hr (b', d') Hin). cbn [fst] in Hr.
      rewrite (neg64_nonzero b' Hr).
      destruct (Z.leb_spec (2 ^ 64 - a) (2 ^ 64 - b));
        destruct (Z.leb_spec b a); try lia; cbn [andb];
        [destruct (Z.leb_spec (2 ^ 64 - b) (2 ^ 64 - b'));
         destruct (Z.leb_spec b' b); try lia |];
        cbn [option_map fst snd];
        rewrite ?neg64_nonzero by assumption; reflexivity.
    + destruct (Z.leb_spec (2 ^ 64 - a) (2 ^ 64 - b));
        destruct (Z.leb_spec b a); try lia; cbn [option_map fst snd];
        rewrite ?neg64_nonzero by assumption; reflexivity.
Qed.

(** For a nonzero address and nonzero bases, [bus_t::load] and
    [bus_t::store] reach the device with the greatest base not exceeding
    the address, at the offset [addr - base], and return [false] when
    there is none. *)
Lemma bus_dispatch_away_from_zero
    (a : reg_t) (regs : list (reg_t * abstract_device_t)) (l : nat) (bytes : list Z) :
  1 <= a < 2 ^ 64 ->
  Forall (fun r => 1 <= fst r < 2 ^ 64) regs ->
  bus_t_load (bus_of regs) a l bytes
    = match greatest_base_le a regs with
      | Some (base, dev) => load dev (a - base) l bytes
      | None => (false, bytes)
      end
  /\ bus_t_store (bus_of regs) a l bytes
    = match greatest_base_le a regs with
      | Some (base, dev) => store dev (a - base) l bytes
      | None => (false, [])
      end.
Proof.
  intros Ha Hall. unfold bus_t_load, bus_t_store.
  rewrite (lower_bound_greatest_base a regs Ha Hall).
  destruct (greatest_base_le a regs) as [[b d] |] eqn:Hg; cbn [option_map fst snd].
  - destruct (greatest_base_le_In a regs b d Hg) as [Hin Hle].
    rewrite List.Forall_forall in Hall. specialize (Hall (b, d) Hin). cbn [fst] in Hall.
    assert (Hoff : wrap64 (a - neg64 (neg64 b)) = a - b).
    { rewrite (neg64_nonzero b Hall), neg64_nonzero by lia.
      unfold wrap64. replace (a - (2 ^ 64 - (2 ^ 64 - b))) with (a - b) by lia.
      apply Z.mod_small. lia. }
    rewrite Hoff. split; reflexivity.
  - split; reflexivity.
Qed.

(** * Further properties of the fast path *)

(** ** Bytes in host memory *)

Lemma pow256_sizeof (ty : int_type) :
  256 ^ Z.of_nat (Z.to_nat (sizeof ty)) = 2 ^ (8 * sizeof ty).
Proof. destruct ty; reflexivity. Qed.

Lemma sizeof_pos (ty : int_type) : 0 < sizeof ty.
Proof. destruct ty; reflexivity. Qed.

Lemma read_bytes_assign_from
    (ty : int_type) (p v : Z) (m : memory) (k : nat) (j : Z) :
  0 <= j ->
  j + Z.of_nat k <= sizeof ty ->
  read_bytes k (p + j) (assign ty p v m) = Z.shiftr v (8 * j) mod 256 ^ Z.of_nat k.
Proof.
  revert j. induction k as [| k IH]; intros j Hj Hk.
  - cbn. symmetry. apply Z.mod_1_r.
  - cbn [read_bytes]. rewrite Nat2Z.inj_succ in *.
    replace (p + j + 1) with (p + (j + 1)) by lia.
    rewrite (IH (j + 1)) by lia.
    unfold assign at 1.
    destruct (Z.leb_spec p (p + j)); [| lia].
    destruct (Z.ltb_spec (p + j) (p + sizeof ty)); [| lia].
    cbn [andb]. replace (p + j - p) with j by lia.
    rewrite Z.mod_mod by lia.
    rewrite Z.pow_succ_r by lia.
    rewrite (Z.rem_mul_r (Z.shiftr v (8 * j)) 256 (256 ^ Z.of_nat k)) by lia.
    replace (8 * (j + 1)) with (8 * j + 8) by lia.
    rewrite <- Z.shiftr_shiftr by lia.
    rewrite (Z.shiftr_div_pow2 (Z.shiftr v (8 * j)) 8) by lia.
    reflexivity.
Qed.

(** What a store wrote is what a read of the same type at the same
    pointer finds. *)
Lemma deref_assign (ty : int_type) (p v : Z) (m : memory) :
  deref ty p (assign ty p v m) = as_type ty v.
Proof.
  unfold deref.
  pose proof (read_bytes_assign_from ty p v m (Z.to_nat (sizeof ty)) 0) as H.
  rewrite Z.add_0_r in H. rewrite H.
  - rewrite pow256_sizeof. change (8 * 0) with 0. rewrite Z.shiftr_0_r.
    unfold as_type. cbv zeta. rewrite Z.mod_mod; [reflexivity |].
    destruct ty; discriminate.
  - lia.
  - pose proof (sizeof_pos ty). lia.
Qed.

(** A read away from the bytes a store wrote finds what was there. *)
Lemma read_bytes_assign_disjoint
    (ty : int_type) (p v : Z) (m : memory) (n : nat) (q : Z) :
  q + Z.of_nat n <= p \/ p + sizeof ty <= q ->
  read_bytes n q (assign ty p v m) = read_bytes n q m.
Proof.
  revert q. induction n as [| n IH]; intros q Hq.
  - reflexivity.
  - cbn [read_bytes]. rewrite Nat2Z.inj_succ in Hq.
    rewrite (IH (q + 1)) by lia.
    unfold assign.
    destruct (Z.leb_spec p q); destruct (Z.ltb_spec q (p + sizeof ty));
      cbn [andb]; try reflexivity; lia.
Qed.


(** ** Loads and stores through the TLB *)

(** What the raw store leaves behind when it completes with the history
    kept by [record_append], or with time-warp mode off. *)
Lemma store_at_completes
    (E : environment) (ty : int_type) (a : reg_t) (val : Z) (s : machine) :
  timewarp s = false \/ (record E = record_append /\ proc s <> None) ->
  exists s1,
    store_at E ty a val s = (Normal tt, s1)
    /\ mem s1 = assign ty (cached_ptr s a) val (mem s)
    /\ tlb_data s1 = tlb_data s
    /\ tlb_load_tag s1 = tlb_load_tag s
    /\ tlb_store_tag s1 = tlb_store_tag s
    /\ timewarp s1 = timewarp s
    /\ proc s1 = proc s
    /\ matched_trigger s1 = matched_trigger s.
Proof.
  intros [Htw | [Hrec Hp]]; rewrite store_at_cases; cbn zeta.
  - rewrite Htw. eexists. split; [reflexivity |]. cbn. repeat split; exact Htw.
  - destruct (timewarp s) eqn:Htw.
    + rewrite Hrec. unfold record_append, with_proc, modify.
      destruct (proc s) as [pr |] eqn:Hpr; [| contradiction].
      eexists. split; [reflexivity |]. cbn.
      repeat split; first [assumption | reflexivity].
    + eexists. split; [reflexivity |]. cbn.
      repeat split; first [assumption | reflexivity].
Qed.

(** X1: read after write on the fast path.  A store through a plain
    store-TLB entry followed by a load of the same type at the same address
    through a plain load-TLB entry returns the stored value, converted to
    the type. *)
Theorem store_then_load_returns_value
    (E : environment) (ty : int_type) (a : reg_t) (val : Z) (s : machine) :
  misaligned ty a = false ->
  timewarp s = false \/ (record E = record_append /\ proc s <> None) ->
  tlb_store_tag s (slot a) = vpn_of a ->
  tlb_load_tag s (slot a) = vpn_of a ->
  fst ((let* _ := store_func E ty a val in load_func E ty a) s) = Normal (as_type ty val).
Proof.
  intros Hal Hmode Hst Hld.
  unfold bind. rewrite (store_func_aligned E ty a val s Hal), Hst, Z.eqb_refl.
  destruct (store_at_completes E ty a val s Hmode)
    as (s1 & Hs1 & Hmem & Hdata & Hltag & _).
  rewrite Hs1, (load_func_aligned E ty a s1 Hal), Hltag, Hld, Z.eqb_refl.
  cbn [fst]. unfold cached_ptr. rewrite Hmem, Hdata. fold (cached_ptr s a).
  f_equal. apply deref_assign.
Qed.

Lemma store_then_load_returns_value_witness :
  fst ((let* _ := store_func env0 int16 0x1002 0xfffe in load_func env0 int16 0x1002)
         plain_hit)
  = Normal (-2).
Proof.
  apply (store_then_load_returns_value env0 int16 0x1002 0xfffe plain_hit).
  - vm_compute. reflexivity.
  - left. reflexivity.
  - vm_compute. reflexivity.
  - vm_compute. reflexivity.
Defined.

(** X2: a store through a plain entry changes no byte outside the
    [sizeof] bytes at its target: a load whose bytes lie elsewhere returns
    after the store what it returned before. *)
Theorem store_leaves_other_bytes
    (E : environment) (ty tyb : int_type) (a b : reg_t) (val : Z) (s : machine) :
  misaligned ty a = false ->
  misaligned tyb b = false ->
  timewarp s = false \/ (record E = record_append /\ proc s <> None) ->
  tlb_store_tag s (slot a) = vpn_of a ->
  tlb_load_tag s (slot b) = vpn_of b ->
  cached_ptr s b + sizeof tyb <= cached_ptr s a
    \/ cached_ptr s a + sizeof ty <= cached_ptr s b ->
  (forall q, q < cached_ptr s a \/ cached_ptr s a + sizeof ty <= q ->
     mem (snd (store_func E ty a val s)) q = mem s q)
  /\ fst (load_func E tyb b (snd (store_func E ty a val s))) = fst (load_func E tyb b s).
Proof.
  intros Hal Halb Hmode Hst Hld Hdis.
  rewrite (store_func_aligned E ty a val s Hal), Hst, Z.eqb_refl.
  destruct (store_at_completes E ty a val s Hmode)
    as (s1 & Hs1 & Hmem & Hdata & Hltag & _).
  rewrite Hs1. cbn [snd]. split.
  - intros q Hq. rewrite Hmem. unfold assign.
    destruct (Z.leb_spec (cached_ptr s a) q);
      destruct (Z.ltb_spec q (cached_ptr s a + sizeof ty)); cbn [andb];
      try reflexivity; lia.
  - rewrite (load_func_aligned E tyb b s1 Halb), (load_func_aligned E tyb b s Halb).
    rewrite Hltag, Hld, Z.eqb_refl. cbn [fst]. f_equal.
    unfold cached_ptr. rewrite Hmem, Hdata. fold (cached_ptr s a). fold (cached_ptr s b).
    unfold deref. f_equal. apply read_bytes_assign_disjoint.
    rewrite Z2Nat.id by (pose proof (sizeof_pos tyb); lia). exact Hdis.
Qed.

Lemma store_leaves_other_bytes_witness :
  fst (load_func env0 uint16 0x1004 (snd (store_func env0 uint32 0x1000 0xffffffff plain_hit)))
  = fst (load_func env0 uint16 0x1004 plain_hit).
Proof.
  apply (store_leaves_other_bytes env0 uint32 uint16 0x1000 0x1004 0xffffffff plain_hit).
  - vm_compute. reflexivity.
  - vm_compute. reflexivity.
  - left. reflexivity.
  - vm_compute. reflexivity.
  - vm_compute. reflexivity.
  - right. vm_compute. discriminate.
Defined.



(** X4: a load that does not reach the slow path writes nothing: memory,
    the history of stores, the TLB tables and the instruction cache are
    after the load what they were before it. *)
Theorem load_writes_nothing
    (E : environment) (ty : int_type) (a : reg_t) (s : machine) :
  tlb_load_tag s (slot a) = vpn_of a
    \/ tlb_load_tag s (slot a) = Z.lor (vpn_of a) TLB_CHECK_TRIGGERS ->
  let s' := snd (load_func E ty a s) in
  mem s' = mem s /\ traces s' = traces s /\ trace_clks s' = trace_clks s
  /\ tlb_data s' = tlb_data s /\ tlb_load_tag s' = tlb_load_tag s
  /\ tlb_store_tag s' = tlb_store_tag s /\ tlb_insn_tag s' = tlb_insn_tag s
  /\ icache s' = icache s /\ timewarp s' = timewarp s
  /\ List.filter is_slow_path_call (calls s') = List.filter is_slow_path_call (calls s).
Proof.
  intros Htag s'. subst s'.
  destruct (misaligned ty a) eqn:Hal.
  { unfold load_func. rewrite Hal. cbn. repeat split. }
  rewrite (load_func_aligned E ty a s Hal).
  destruct (tlb_load_tag s (slot a) =? vpn_of a) eqn:H1.
  { cbn. repeat split. }
  destruct (tlb_load_tag s (slot a) =? Z.lor (vpn_of a) TLB_CHECK_TRIGGERS) eqn:H2.
  - unfold bind. rewrite check_trigger_cases.
    destruct (matched_trigger s); [cbn; repeat split |].
    destruct (proc s) as [pr |]; [| cbn; repeat split].
    cbn zeta. unfold ret.
    destruct (trigger_match pr OPERATION_LOAD a _ =? -1);
      [| destruct (mcontrol_timing pr _ =? 0)];
      cbn [snd mem traces trace_clks tlb_data tlb_load_tag tlb_store_tag tlb_insn_tag
           icache timewarp calls set_calls set_matched_trigger];
      rewrite List.filter_app; cbn [List.filter is_slow_path_call]; rewrite app_nil_r;
      repeat split.
  - destruct Htag as [Ht | Ht]; rewrite Ht, Z.eqb_refl in *; discriminate.
Qed.

Lemma load_writes_nothing_witness :
  mem (snd (load_func env0 uint8 0x1000 (flagged (Some (hart trigger_0 1)) None)))
  = mem (flagged (Some (hart trigger_0 1)) None).
Proof.
  apply (load_writes_nothing env0 uint8 0x1000 (flagged (Some (hart trigger_0 1)) None)).
  right. vm_compute. reflexivity.
Defined.

Lemma as_type_as_type (ty1 ty2 : int_type) (x : Z) :
  sizeof ty1 = sizeof ty2 ->
  as_type ty1 (as_type ty2 x) = as_type ty1 x.
Proof.
  intros Hsz. unfold as_type. cbv zeta. rewrite Hsz.
  set (w := 8 * sizeof ty2).
  assert (Hw : 0 < 2 ^ w).
  { apply Z.pow_pos_nonneg; [lia |]. subst w. pose proof (sizeof_pos ty2). lia. }
  assert (Hin : (if is_signed ty2 && (2 ^ (w - 1) <=? x mod 2 ^ w)
                 then x mod 2 ^ w - 2 ^ w else x mod 2 ^ w) mod 2 ^ w = x mod 2 ^ w).
  { destruct (is_signed ty2 && (2 ^ (w - 1) <=? x mod 2 ^ w)).
    - replace (x mod 2 ^ w - 2 ^ w) with (x mod 2 ^ w + (-1) * 2 ^ w) by lia.
      rewrite Z.mod_add by lia. apply Z.mod_mod. lia.
    - apply Z.mod_mod. lia. }
  rewrite Hin. reflexivity.
Qed.

(** X5: loads of one width read the same bytes.  Away from an entry that
    carries [TLB_CHECK_TRIGGERS], the load of a type returns the conversion
    to that type of what the load of any other type of the same width
    returns (so [load_int16] is the sign extension of [load_uint16]), and
    leaves the same state. *)
Theorem loads_of_one_width_agree
    (E : environment) (ty1 ty2 : int_type) (a : reg_t) (s s' : machine) (v2 : Z) :
  sizeof ty1 = sizeof ty2 ->
  tlb_load_tag s (slot a) <> Z.lor (vpn_of a) TLB_CHECK_TRIGGERS ->
  load_func E ty2 a s = (Normal v2, s') ->
  load_func E ty1 a s = (Normal (as_type ty1 v2), s').
Proof.
  intros Hsz Hnf H.
  assert (Hmis : misaligned ty1 a = misaligned ty2 a).
  { unfold misaligned. rewrite Hsz. reflexivity. }
  destruct (misaligned ty2 a) eqn:Hal.
  { unfold load_func in H. rewrite Hal in H. discriminate. }
  rewrite (load_func_aligned E ty2 a s Hal) in H.
  rewrite (load_func_aligned E ty1 a s Hmis).
  destruct (tlb_load_tag s (slot a) =? vpn_of a).
  { injection H as <- <-. f_equal. f_equal. unfold deref. rewrite Hsz.
    symmetry. apply as_type_as_type, Hsz. }
  destruct (Z.eqb_spec (tlb_load_tag s (slot a)) (Z.lor (vpn_of a) TLB_CHECK_TRIGGERS));
    [contradiction |].
  unfold bind, invoke, ret in *. rewrite Hsz.
  destruct (load_slow_path E a (sizeof ty2) s) as [[res | e |] s1]; try discriminate.
  injection H as <- <-. f_equal. f_equal. symmetry. apply as_type_as_type, Hsz.
Qed.

Lemma loads_of_one_width_agree_witness :
  load_func env0 int8 0x1000
    (machine_1 (Some (hart no_trigger 0)) empty_tlb 1 None false not_interested
       (fun _ => 0xff))
  = (Normal (-1),
     machine_1 (Some (hart no_trigger 0)) empty_tlb 1 None false not_interested
       (fun _ => 0xff)).
Proof.
  apply (loads_of_one_width_agree env0 int8 uint8 0x1000
           (machine_1 (Some (hart no_trigger 0)) empty_tlb 1 None false not_interested
              (fun _ => 0xff)) _ 255).
  - reflexivity.
  - vm_compute. discriminate.
  - vm_compute. reflexivity.
Defined.

(** X6: an atomic memory operation whose address hits plainly in the load
    and the store TLB returns the value that was in memory and leaves
    [f] of it there: the bytes at the target are those of [f(old)], and a
    load afterwards returns it. *)
Theorem amo_returns_old_and_stores_new
    (E : environment) (ty : int_type) (a : reg_t) (f : Z -> Z) (s : machine) :
  misaligned ty a = false ->
  timewarp s = false \/ (record E = record_append /\ proc s <> None) ->
  tlb_load_tag s (slot a) = vpn_of a ->
  tlb_store_tag s (slot a) = vpn_of a ->
  let old := deref ty (cached_ptr s a) (mem s) in
  fst (amo_func E ty a f s) = Normal old
  /\ mem (snd (amo_func E ty a f s))
     = assign ty (cached_ptr s a) (as_type ty (f old)) (mem s)
  /\ fst (load_func E ty a (snd (amo_func E ty a f s))) = Normal (as_type ty (f old)).
Proof.
  intros Hal Hmode Hld Hst old.
  unfold amo_func. rewrite Hal. unfold try_catch_load_access_fault, bind.
  rewrite (load_func_aligned E ty a s Hal), Hld, Z.eqb_refl. fold old.
  rewrite (store_func_aligned E ty a (as_type ty (f old)) s Hal), Hst, Z.eqb_refl.
  destruct (store_at_completes E ty a (as_type ty (f old)) s Hmode)
    as (s1 & Hs1 & Hmem & Hdata & Hltag & _).
  rewrite Hs1. unfold ret. cbn [fst snd].
  split; [reflexivity | split; [exact Hmem |]].
  rewrite (load_func_aligned E ty a s1 Hal), Hltag, Hld, Z.eqb_refl. cbn [fst].
  unfold cached_ptr. rewrite Hmem, Hdata. fold (cached_ptr s a).
  rewrite deref_assign. f_equal. apply as_type_as_type. reflexivity.
Qed.

Lemma amo_returns_old_and_stores_new_witness :
  fst (amo_func env0 uint32 0x1000 (fun x => x + 1)
         (machine_1 (Some (hart no_trigger 0)) empty_tlb 1 None false not_interested
            (fun _ => 0xff)))
  = Normal 0xffffffff
  /\ fst (load_func env0 uint32 0x1000
            (snd (amo_func env0 uint32 0x1000 (fun x => x + 1)
                    (machine_1 (Some (hart no_trigger 0)) empty_tlb 1 None false
                       not_interested (fun _ => 0xff)))))
     = Normal 0.
Proof.
  destruct (amo_returns_old_and_stores_new env0 uint32 0x1000 (fun x => x + 1)
              (machine_1 (Some (hart no_trigger 0)) empty_tlb 1 None false not_interested
                 (fun _ => 0xff)))
    as [Hold [_ Hnew]].
  - vm_compute. reflexivity.
  - left. reflexivity.
  - vm_compute. reflexivity.
  - vm_compute. reflexivity.
  - split; [exact Hold | exact Hnew].
Defined.

(** X7: what a second attempt does after a trigger fired on a load
    through an entry that carries [TLB_CHECK_TRIGGERS].  With a timing
    other than 0 the first attempt throws and leaves the match pending, and
    the same load attempted again in that state returns the data without
    asking the trigger module.  With timing 0 nothing is left pending, and
    the second attempt throws the same exception again. *)
Theorem load_retry_after_trigger
    (E : environment) (ty : int_type) (a : reg_t) (s : machine) (pr : processor_t) :
  0 <= a < 2 ^ 64 ->
  misaligned ty a = false ->
  tlb_load_tag s (slot a) = Z.lor (vpn_of a) TLB_CHECK_TRIGGERS ->
  matched_trigger s = None ->
  proc s = Some pr ->
  let d := deref ty (cached_ptr s a) (mem s) in
  let m := trigger_match pr OPERATION_LOAD a (to_reg d) in
  let t := {| index := m; operation := OPERATION_LOAD; address := a; data := to_reg d |} in
  m <> -1 ->
  fst (load_func E ty a s) = Thrown (throw_trigger_matched t)
  /\ (mcontrol_timing pr m <> 0 ->
      matched_trigger (snd (load_func E ty a s)) = Some t
      /\ load_func E ty a (snd (load_func E ty a s)) = (Normal d, snd (load_func E ty a s)))
  /\ (mcontrol_timing pr m = 0 ->
      matched_trigger (snd (load_func E ty a s)) = None
      /\ fst (load_func E ty a (snd (load_func E ty a s))) = Thrown (throw_trigger_matched t)).
Proof.
  intros Ha Hal Htag Hmt Hp d m t Hm.
  destruct (load_func_dispatch E ty a s Ha Hal) as [_ [Hflag _]].
  specialize (Hflag Htag). cbv zeta in Hflag. rewrite Hmt, Hp in Hflag.
  fold d in Hflag. fold m in Hflag. fold t in Hflag.
  destruct (Z.eqb_spec m (-1)) as [| _]; [contradiction |].
  destruct (Z.eqb_spec (mcontrol_timing pr m) 0) as [Ht0 | Ht0]; rewrite Hflag; cbn [fst snd].
  - split; [reflexivity | split; [intros; contradiction |]].
    intros _. split; [exact Hmt |].
    set (s1 := set_calls _ s).
    destruct (load_func_dispatch E ty a s1 Ha Hal) as [_ [Hflag1 _]].
    specialize (Hflag1 Htag). cbv zeta in Hflag1.
    change (matched_trigger s1) with (matched_trigger s) in Hflag1.
    change (proc s1) with (proc s) in Hflag1.
    rewrite Hmt, Hp in Hflag1.
    change (deref ty (cached_ptr s1 a) (mem s1)) with d in Hflag1.
    fold m in Hflag1. fold t in Hflag1.
    destruct (Z.eqb_spec m (-1)) as [| _]; [contradiction |].
    destruct (Z.eqb_spec (mcontrol_timing pr m) 0) as [_ |]; [| contradiction].
    rewrite Hflag1. reflexivity.
  - split; [reflexivity | split; [| intros; contradiction]].
    intros _. split; [reflexivity |].
    set (s1 := set_matched_trigger _ _).
    destruct (load_func_dispatch E ty a s1 Ha Hal) as [_ [Hflag1 _]].
    specialize (Hflag1 Htag). cbv zeta in Hflag1. exact Hflag1.
Qed.

Lemma load_retry_after_trigger_witness :
  load_func env0 uint8 0x1000
    (snd (load_func env0 uint8 0x1000 (flagged (Some (hart trigger_0 1)) None)))
  = (Normal 0, snd (load_func env0 uint8 0x1000 (flagged (Some (hart trigger_0 1)) None))).
Proof.
  destruct (load_retry_after_trigger env0 uint8 0x1000
              (flagged (Some (hart trigger_0 1)) None) (hart trigger_0 1))
    as [_ [Hafter _]].
  - vm_compute. split; [discriminate | reflexivity].
  - vm_compute. reflexivity.
  - vm_compute. reflexivity.
  - reflexivity.
  - reflexivity.
  - vm_compute. discriminate.
  - apply Hafter. vm_compute. discriminate.
Defined.

(** X24: what a second attempt does after an "after" trigger fired on a
    store.  The first attempt throws and writes nothing; the same store
    attempted again in the state it left is the raw store: the value is
    written, and the trigger module is not asked a second time. *)
Theorem store_retry_after_trigger
    (E : environment) (ty : int_type) (a : reg_t) (val : Z) (s : machine)
    (pr : processor_t) :
  0 <= a < 2 ^ 64 ->
  misaligned ty a = false ->
  tlb_store_tag s (slot a) = Z.lor (vpn_of a) TLB_CHECK_TRIGGERS ->
  matched_trigger s = None ->
  proc s = Some pr ->
  trigger_match pr OPERATION_STORE a (to_reg val) <> -1 ->
  mcontrol_timing pr (trigger_match pr OPERATION_STORE a (to_reg val)) <> 0 ->
  let s1 := snd (store_func E ty a val s) in
  fst (store_func E ty a val s)
    = Thrown (throw_trigger_matched
                {| index := trigger_match pr OPERATION_STORE a (to_reg val);
                   operation := OPERATION_STORE; address := a; data := to_reg val |})
  /\ mem s1 = mem s
  /\ store_func E ty a val s1 = store_at E ty a val s1
  /\ (timewarp s = false ->
      mem (snd (store_func E ty a val s1)) = assign ty (cached_ptr s a) val (mem s)
      /\ List.filter is_trigger_match_call (calls (snd (store_func E ty a val s1)))
         = List.filter is_trigger_match_call (calls s1)).
Proof.
  intros Ha Hal Htag Hmt Hp Hm Ht s1. subst s1.
  destruct (store_func_dispatch E ty a val s Ha Hal) as [_ [Hflag _]].
  specialize (Hflag Htag). cbv zeta in Hflag. rewrite Hmt, Hp in Hflag.
  destruct (Z.eqb_spec (trigger_match pr OPERATION_STORE a (to_reg val)) (-1));
    [contradiction |].
  destruct (Z.eqb_spec (mcontrol_timing pr (trigger_match pr OPERATION_STORE a (to_reg val))) 0);
    [contradiction |].
  rewrite Hflag. cbn [fst snd].
  set (s1 := set_matched_trigger _ _).
  destruct (store_func_dispatch E ty a val s1 Ha Hal) as [_ [Hflag1 _]].
  specialize (Hflag1 Htag). cbv zeta in Hflag1.
  split; [reflexivity | split; [reflexivity | split; [exact Hflag1 |]]].
  intros Htw. rewrite Hflag1.
  rewrite (store_at_without_timewarp E ty a val s1 Htw). cbn [snd].
  split; reflexivity.
Qed.

Lemma store_retry_after_trigger_witness :
  mem (snd (store_func env0 uint8 0x1000 0xab
              (snd (store_func env0 uint8 0x1000 0xab
                      (flagged (Some (hart trigger_0 1)) None))))) 0x1000
  = 0xab.
Proof.
  destruct (store_retry_after_trigger env0 uint8 0x1000 0xab
              (flagged (Some (hart trigger_0 1)) None) (hart trigger_0 1))
    as [_ [_ [_ Hwrite]]].
  - vm_compute. split; [discriminate | reflexivity].
  - vm_compute. reflexivity.
  - vm_compute. reflexivity.
  - reflexivity.
  - reflexivity.
  - vm_compute. discriminate.
  - vm_compute. discriminate.
  - destruct (Hwrite eq_refl) as [Hmem _]. rewrite Hmem. vm_compute. reflexivity.
Defined.

(** X8: the time-warp flag has no bearing on a load or an instruction
    fetch that stays on the fast path: after [set_timewarp] with either
    value, it returns or throws what it would have without the call. *)
Theorem timewarp_flag_does_not_change_loads
    (E : environment) (ty : int_type) (a : reg_t) (value : bool) (s : machine) :
  (tlb_load_tag s (slot a) = vpn_of a
     \/ tlb_load_tag s (slot a) = Z.lor (vpn_of a) TLB_CHECK_TRIGGERS ->
   fst ((let* _ := set_timewarp value in load_func E ty a) s) = fst (load_func E ty a s))
  /\ (tlb_insn_tag s (slot a) = vpn_of a
        \/ tlb_insn_tag s (slot a) = Z.lor (vpn_of a) TLB_CHECK_TRIGGERS ->
      fst ((let* _ := set_timewarp value in translate_insn_addr E a) s)
        = fst (translate_insn_addr E a s)).
Proof.
  split; intros Htag; unfold bind at 1, set_timewarp, modify;
    match goal with |- context [?f E ?x ?y ?st] => set (s2 := st) | |- context [?f E ?x ?st] => set (s2 := st) end.
  - destruct (misaligned ty a) eqn:Hal.
    { unfold load_func. rewrite Hal. reflexivity. }
    rewrite (load_func_aligned E ty a s2 Hal), (load_func_aligned E ty a s Hal).
    change (tlb_load_tag s2) with (tlb_load_tag s).
    change (cached_ptr s2 a) with (cached_ptr s a).
    change (mem s2) with (mem s).
    destruct (tlb_load_tag s (slot a) =? vpn_of a) eqn:H1; [reflexivity |].
    destruct (tlb_load_tag s (slot a) =? Z.lor (vpn_of a) TLB_CHECK_TRIGGERS) eqn:H2.
    + unfold bind. rewrite !check_trigger_cases.
      change (matched_trigger s2) with (matched_trigger s).
      change (proc s2) with (proc s).
      destruct (matched_trigger s); [reflexivity |].
      destruct (proc s) as [pr |]; [| reflexivity].
      cbn zeta.
      destruct (trigger_match pr OPERATION_LOAD a _ =? -1); [reflexivity |].
      destruct (mcontrol_timing pr _ =? 0); reflexivity.
    + destruct Htag as [Ht | Ht]; rewrite Ht, Z.eqb_refl in *; discriminate.
  - rewrite !translate_insn_addr_cases.
    change (tlb_insn_tag s2) with (tlb_insn_tag s).
    change (cached_ptr s2 a) with (cached_ptr s a).
    change (mem s2) with (mem s).
    change (proc s2) with (proc s).
    destruct (tlb_insn_tag s (slot a) =? vpn_of a) eqn:H1; [reflexivity |].
    destruct (tlb_insn_tag s (slot a) =? Z.lor (vpn_of a) TLB_CHECK_TRIGGERS) eqn:H2.
    + destruct (proc s) as [pr |]; [| reflexivity].
      cbn zeta. destruct (0 <=? trigger_match pr OPERATION_EXECUTE a _); reflexivity.
    + destruct Htag as [Ht | Ht]; rewrite Ht, Z.eqb_refl in *; discriminate.
Qed.

Lemma timewarp_flag_does_not_change_loads_witness :
  fst ((let* _ := set_timewarp true in load_func env0 uint8 0x1000) plain_hit)
  = fst (load_func env0 uint8 0x1000 plain_hit).
Proof.
  apply (timewarp_flag_does_not_change_loads env0 uint8 0x1000 true plain_hit).
  left. vm_compute. reflexivity.
Defined.

(** * Further properties of the instruction cache *)

(** Every refill that completes ends in a state of the shape [refilled],
    from the state its last fetch left. *)
Lemma refill_icache_final
    (E : environment) (pc : reg_t) (entry : Z) (s s' : machine) (e : Z) :
  refill_icache E pc entry s = (Normal e, s') ->
  e = entry
  /\ exists (s2 : machine) (pr : processor_t) (iaddr length : Z) (bits : insn_bits_t),
       proc s2 = Some pr /\ s' = refilled E pc entry s2 pr iaddr length bits.
Proof.
  intros H. unfold refill_icache in H.
  apply bind_normal_inv in H. destruct H as (iaddr & s1 & Htr & H).
  rewrite bind_gets in H. cbv zeta in H.
  apply bind_normal_inv in H. destruct H as (bits & s2 & _ & H).
  apply bind_normal_inv in H. destruct H as (fetch & s3 & Hfetch & H).
  unfold with_proc in Hfetch. destruct (proc s2) as [pr |] eqn:Hp; [| discriminate].
  unfold ret in Hfetch. injection Hfetch as Hf Hs3. subst s3 fetch.
  unfold bind, modify, gets, log, ret in H.
  cbn [tracer_interested_in_range set_entry_data set_entry_tag set_icache] in H.
  assert (He : e = entry).
  { destruct (tracer_interested_in_range s2 _ _ FETCH); injection H as He _; congruence. }
  split; [exact He |].
  exists s2, pr, iaddr, (insn_length E (deref uint16 iaddr (mem s1))), bits.
  split; [exact Hp |].
  unfold refilled. cbv zeta.
  destruct (tracer_interested_in_range s2 _ _ FETCH); injection H as _ Hs; symmetry; exact Hs.
Qed.

(** A refill whose halfwords all hit in the instruction TLB ends in
    [refilled], from the state it started in, with the bits read from
    memory. *)
Lemma refill_icache_on_hits
    (E : environment) (pc : reg_t) (entry : Z) (s : machine) (pr : processor_t) :
  proc s = Some pr ->
  tlb_insn_tag s (slot pc) = vpn_of pc ->
  (forall k, In k [2; 4; 6] ->
     tlb_insn_tag s (slot (wrap64 (pc + k))) = vpn_of (wrap64 (pc + k))) ->
  refill_icache E pc entry s
    = (Normal entry,
       refilled E pc entry s pr (cached_ptr s pc)
         (insn_length E (deref uint16 (cached_ptr s pc) (mem s)))
         (assembled_bits E s pc)).
Proof.
  intros Hp H0 Hk.
  pose proof (Hk 2 ltac:(cbn; tauto)) as H2.
  pose proof (Hk 4 ltac:(cbn; tauto)) as H4.
  pose proof (Hk 6 ltac:(cbn; tauto)) as H6.
  unfold refill_icache.
  unfold bind at 1. rewrite (translate_insn_addr_hit E pc s H0).
  rewrite bind_gets. cbv zeta.
  set (insn0 := deref uint16 (cached_ptr s pc) (mem s)).
  assert (Hbits :
    (if insn_length E insn0 =? 4
     then let* h2 := fetch_half E int16 (wrap64 (pc + 2)) in
          ret (Z.lor insn0 (shl64 h2 16))
     else if insn_length E insn0 =? 2
     then ret (to_reg (as_type int16 insn0))
     else if insn_length E insn0 =? 6
     then let* h4 := fetch_half E int16 (wrap64 (pc + 4)) in
          let* h2 := fetch_half E uint16 (wrap64 (pc + 2)) in
          ret (Z.lor (Z.lor insn0 (shl64 h4 32)) (shl64 h2 16))
     else let* h6 := fetch_half E int16 (wrap64 (pc + 6)) in
          let* h4 := fetch_half E uint16 (wrap64 (pc + 4)) in
          let* h2 := fetch_half E uint16 (wrap64 (pc + 2)) in
          ret (Z.lor (Z.lor (Z.lor insn0 (shl64 h6 48)) (shl64 h4 32)) (shl64 h2 16))) s
    = (Normal (assembled_bits E s pc), s)).
  { unfold assembled_bits. cbv zeta. fold insn0.
    destruct (insn_length E insn0 =? 4).
    { unfold bind. rewrite (fetch_half_hit E int16 _ s H2). reflexivity. }
    destruct (insn_length E insn0 =? 2).
    { reflexivity. }
    destruct (insn_length E insn0 =? 6).
    { unfold bind. rewrite (fetch_half_hit E int16 _ s H4).
      rewrite (fetch_half_hit E uint16 _ s H2). reflexivity. }
    unfold bind. rewrite (fetch_half_hit E int16 _ s H6).
    rewrite (fetch_half_hit E uint16 _ s H4).
    rewrite (fetch_half_hit E uint16 _ s H2). reflexivity. }
  unfold bind at 1. rewrite Hbits.
  unfold bind, with_proc, modify, gets, log, ret. rewrite Hp.
  cbn [tracer_interested_in_range set_entry_data set_entry_tag set_icache].
  unfold refilled. cbv zeta.
  destruct (tracer_interested_in_range s _ _ FETCH); reflexivity.
Qed.

Lemma refilled_frame
    (E : environment) (pc : reg_t) (entry : Z) (s : machine) (pr : processor_t)
    (iaddr length : Z) (bits : insn_bits_t) :
  let s' := refilled E pc entry s pr iaddr length bits in
  (forall j, j <> entry -> icache s' j = icache s j)
  /\ pad (icache s' entry) = pad (icache s entry)
  /\ entry_data (icache s' entry) = {| func := decode_insn pr bits; insn := bits |}
  /\ (tag (icache s' entry) = pc \/ tag (icache s' entry) = wrap64 (-1))
  /\ proc s' = proc s /\ mem s' = mem s /\ tlb_data s' = tlb_data s
  /\ tlb_insn_tag s' = tlb_insn_tag s /\ matched_trigger s' = matched_trigger s
  /\ List.filter is_slow_path_call (calls s') = List.filter is_slow_path_call (calls s).
Proof.
  unfold refilled. cbv zeta.
  destruct (tracer_interested_in_range s _ _ FETCH);
    cbn [icache proc mem tlb_data tlb_insn_tag matched_trigger calls
         set_calls set_entry_tag set_entry_data set_icache];
    rewrite ?Z.eqb_refl; cbn [tag pad entry_data];
    rewrite ?Z.eqb_refl; cbn [tag pad entry_data];
    (split; [intros j Hj; destruct (Z.eqb_spec j entry); [contradiction | reflexivity] |]).
  - rewrite List.filter_app. cbn [List.filter is_slow_path_call]. rewrite app_nil_r.
    repeat split. right. reflexivity.
  - repeat split. left. reflexivity.
Qed.

(** X9: a refill whose halfwords all hit in the instruction TLB completes
    and writes one slot of the instruction cache, and of that slot the tag
    and the data only: every other slot, the [pad] of the slot, memory, the
    TLB and the pending trigger are as before, and no slow path is
    called. *)
Theorem refill_icache_writes_one_slot
    (E : environment) (pc : reg_t) (entry : Z) (s : machine) (pr : processor_t) :
  proc s = Some pr ->
  tlb_insn_tag s (slot pc) = vpn_of pc ->
  (forall k, In k [2; 4; 6] ->
     tlb_insn_tag s (slot (wrap64 (pc + k))) = vpn_of (wrap64 (pc + k))) ->
  let s' := snd (refill_icache E pc entry s) in
  fst (refill_icache E pc entry s) = Normal entry
  /\ (forall j, j <> entry -> icache s' j = icache s j)
  /\ pad (icache s' entry) = pad (icache s entry)
  /\ mem s' = mem s /\ tlb_data s' = tlb_data s /\ tlb_insn_tag s' = tlb_insn_tag s
  /\ matched_trigger s' = matched_trigger s
  /\ List.filter is_slow_path_call (calls s') = List.filter is_slow_path_call (calls s).
Proof.
  intros Hp H0 Hk s'. subst s'.
  rewrite (refill_icache_on_hits E pc entry s pr Hp H0 Hk). cbn [fst snd].
  destruct (refilled_frame E pc entry s pr (cached_ptr s pc)
              (insn_length E (deref uint16 (cached_ptr s pc) (mem s)))
              (assembled_bits E s pc))
    as (Hothers & Hpad & _ & _ & _ & Hmem & Hdata & Htag & Hmt & Hcalls).
  repeat split; assumption.
Qed.

Lemma refill_icache_writes_one_slot_witness :
  icache (snd (refill_icache env0 0x1000 (icache_index env0 0x1000)
                 (fetch_machine watch_0x1000))) 5
  = icache (fetch_machine watch_0x1000) 5.
Proof.
  destruct (refill_icache_writes_one_slot env0 0x1000 (icache_index env0 0x1000)
              (fetch_machine watch_0x1000) (hart no_trigger 0))
    as [_ [Hothers _]].
  - reflexivity.
  - vm_compute. reflexivity.
  - intros k Hk. cbn in Hk.
    destruct Hk as [<- | [<- | [<- | []]]]; vm_compute; reflexivity.
  - apply Hothers. vm_compute. discriminate.
Defined.

(** X10: in the entry a completed refill leaves, the decoded handle is
    the decoder's answer for the very bits stored beside it, and the tag is
    [pc] or the sentinel -1. *)
Theorem refill_icache_entry_is_decoded
    (E : environment) (pc : reg_t) (entry : Z) (s s' : machine) (e : Z) :
  refill_icache E pc entry s = (Normal e, s') ->
  exists pr : processor_t,
    proc s' = Some pr
    /\ func (entry_data (icache s' e)) = decode_insn pr (insn (entry_data (icache s' e)))
    /\ (tag (icache s' e) = pc \/ tag (icache s' e) = wrap64 (-1)).
Proof.
  intros H. destruct (refill_icache_final E pc entry s s' e H)
    as (-> & s2 & pr & iaddr & length & bits & Hp & ->).
  destruct (refilled_frame E pc entry s2 pr iaddr length bits)
    as (_ & _ & Hdata & Htag & Hproc & _).
  exists pr. split; [congruence |]. split; [| exact Htag].
  rewrite Hdata. reflexivity.
Qed.

Lemma refill_icache_entry_is_decoded_witness :
  exists pr : processor_t,
    proc (snd (refill_icache env0 0x1000 (icache_index env0 0x1000)
                 (fetch_machine watch_0x1000))) = Some pr
    /\ func (entry_data (icache (snd (refill_icache env0 0x1000 (icache_index env0 0x1000)
                                        (fetch_machine watch_0x1000)))
                           (icache_index env0 0x1000)))
       = decode_insn pr
           (insn (entry_data (icache (snd (refill_icache env0 0x1000
                                             (icache_index env0 0x1000)
                                             (fetch_machine watch_0x1000)))
                                (icache_index env0 0x1000))))
    /\ (tag (icache (snd (refill_icache env0 0x1000 (icache_index env0 0x1000)
                            (fetch_machine watch_0x1000)))
               (icache_index env0 0x1000)) = 0x1000
        \/ tag (icache (snd (refill_icache env0 0x1000 (icache_index env0 0x1000)
                               (fetch_machine watch_0x1000)))
                  (icache_index env0 0x1000)) = wrap64 (-1)).
Proof.
  apply (refill_icache_entry_is_decoded env0 0x1000 (icache_index env0 0x1000)
           (fetch_machine watch_0x1000)).
  vm_compute. reflexivity.
Defined.

Lemma icache_index_period (E : environment) (pc k : Z) :
  0 < PC_ALIGN E ->
  icache_index E (pc + k * (PC_ALIGN E * ICACHE_ENTRIES)) = icache_index E pc.
Proof.
  intros HP. unfold icache_index.
  replace (pc + k * (PC_ALIGN E * ICACHE_ENTRIES))
    with (pc + (k * ICACHE_ENTRIES) * PC_ALIGN E) by lia.
  rewrite Z.div_add by lia.
  rewrite Z.mod_add; [reflexivity |]. discriminate.
Qed.

(** X11: the instruction cache is direct mapped.  Addresses that differ by
    a multiple of [PC_ALIGN * ICACHE_ENTRIES] share a slot; after a
    completed refill for [pc], an access for another address of the same
    slot misses and refills the slot for itself. *)
Theorem icache_collision_evicts
    (E : environment) (pc pc2 : reg_t) (s s' : machine) (e : Z) :
  refill_icache E pc (icache_index E pc) s = (Normal e, s') ->
  icache_index E pc2 = icache_index E pc ->
  pc2 <> pc ->
  pc2 <> wrap64 (-1) ->
  access_icache E pc2 s' = refill_icache E pc2 (icache_index E pc) s'
  /\ (0 < PC_ALIGN E ->
      forall k, icache_index E (pc + k * (PC_ALIGN E * ICACHE_ENTRIES)) = icache_index E pc).
Proof.
  intros H Hidx Hne Hsent. split; [| intros HP k; apply icache_index_period, HP].
  destruct (refill_icache_final E pc (icache_index E pc) s s' e H)
    as (-> & s2 & pr & iaddr & length & bits & Hp & ->).
  destruct (refilled_frame E pc (icache_index E pc) s2 pr iaddr length bits)
    as (_ & _ & _ & Htag & _).
  unfold access_icache. rewrite bind_gets, Hidx.
  destruct (Z.eqb_spec (tag (icache (refilled E pc (icache_index E pc) s2 pr iaddr length bits)
                               (icache_index E pc))) pc2) as [Heq | _]; [| reflexivity].
  destruct Htag as [Ht | Ht]; congruence.
Qed.

Lemma icache_collision_evicts_witness :
  access_icache env0 0x1800
    (snd (refill_icache env0 0x1000 (icache_index env0 0x1000) (fetch_machine not_interested)))
  = refill_icache env0 0x1800 (icache_index env0 0x1000)
      (snd (refill_icache env0 0x1000 (icache_index env0 0x1000)
              (fetch_machine not_interested))).
Proof.
  apply (icache_collision_evicts env0 0x1000 0x1800 (fetch_machine not_interested)
           (snd (refill_icache env0 0x1000 (icache_index env0 0x1000)
                   (fetch_machine not_interested)))
           (icache_index env0 0x1000)).
  - vm_compute. reflexivity.
  - vm_compute. reflexivity.
  - discriminate.
  - vm_compute. discriminate.
Defined.

(** ** The assembled instruction word *)

Lemma lor_low_high (x k n : Z) :
  0 <= n -> 0 <= x < 2 ^ n -> Z.lor x (k * 2 ^ n) = x + k * 2 ^ n.
Proof.
  intros Hn Hx.
  assert (Hland : Z.land x (k * 2 ^ n) = 0).
  { apply Z.bits_inj'. intros i Hi. rewrite Z.land_spec, Z.bits_0.
    destruct (Z.lt_ge_cases i n) as [Hlt | Hge].
    - rewrite Z.mul_pow2_bits_low by lia. apply andb_false_r.
    - assert (Hb : Z.testbit x i = false).
      { apply Z.testbit_false; [lia |].
        rewrite Z.div_small; [reflexivity |].
        pose proof (Z.pow_le_mono_r 2 n i ltac:(lia) Hge). lia. }
      rewrite Hb. reflexivity. }
  rewrite <- (Z.lxor_lor _ _ Hland). symmetry. apply Z.add_nocarry_lxor, Hland.
Qed.

Lemma read_bytes_4_halves (p : Z) (m : memory) :
  read_bytes 4 p m = read_bytes 2 p m + 2 ^ 16 * read_bytes 2 (p + 2) m.
Proof.
  cbn [read_bytes].
  replace (p + 1 + 1) with (p + 2) by lia.
  replace (p + 2 + 1) with (p + 3) by lia.
  change (2 ^ 16) with 65536. lia.
Qed.

Lemma sign_extended_word (u0 u1 : Z) :
  0 <= u0 < 2 ^ 16 -> 0 <= u1 < 2 ^ 16 ->
  Z.lor (as_type uint16 u0) (shl64 (to_reg (as_type int16 u1)) 16)
    = to_reg (as_type int32 (u0 + 2 ^ 16 * u1)).
Proof.
  intros H0 H1. unfold shl64, to_reg, wrap64, as_type. cbv zeta.
  cbn [is_signed sizeof andb].
  change (8 * 2) with 16. change (8 * 4) with 32.
  change (16 - 1) with 15. change (32 - 1) with 31.
  rewrite (Z.mod_small u0 (2 ^ 16)) by lia.
  rewrite (Z.mod_small u1 (2 ^ 16)) by lia.
  rewrite (Z.mod_small (u0 + 2 ^ 16 * u1) (2 ^ 32)) by lia.
  rewrite Z.shiftl_mul_pow2 by lia.
  change (2 ^ 64) with (2 ^ 48 * 2 ^ 16) at 2.
  rewrite Z.mul_mod_distr_r by lia.
  rewrite lor_low_high by lia.
  destruct (Z.leb_spec (2 ^ 15) u1) as [Hneg | Hpos].
  - destruct (Z.leb_spec (2 ^ 31) (u0 + 2 ^ 16 * u1)); [| lia].
    replace ((u1 - 2 ^ 16) mod 2 ^ 64) with (u1 - 2 ^ 16 + 2 ^ 64).
    2: { apply (Z.mod_unique _ _ (-1)); lia. }
    replace ((u1 - 2 ^ 16 + 2 ^ 64) mod 2 ^ 48) with (u1 - 2 ^ 16 + 2 ^ 48).
    2: { apply (Z.mod_unique _ _ (2 ^ 16 - 1)); lia. }
    apply (Z.mod_unique _ _ (-1)); lia.
  - destruct (Z.leb_spec (2 ^ 31) (u0 + 2 ^ 16 * u1)); [lia |].
    rewrite (Z.mod_small u1 (2 ^ 64)) by lia.
    rewrite (Z.mod_small u1 (2 ^ 48)) by lia.
    rewrite Z.mod_small by lia. lia.
Qed.

(** X12: the bits a refill caches for a short instruction.  For a
    two-byte instruction they are the halfword at the fetch pointer, sign
    extended to 64 bits; for a four-byte instruction whose second halfword
    follows the first in host memory they are the little-endian word at the
    pointer, sign extended to 64 bits. *)
Theorem refill_icache_short_insn_bits
    (E : environment) (pc : reg_t) (entry : Z) (s : machine) (pr : processor_t) :
  proc s = Some pr ->
  tlb_insn_tag s (slot pc) = vpn_of pc ->
  let p := cached_ptr s pc in
  let cached := insn (entry_data (icache (snd (refill_icache E pc entry s)) entry)) in
  (insn_length E (deref uint16 p (mem s)) = 2 ->
     cached = to_reg (as_type int16 (read_bytes 2 p (mem s))))
  /\ (insn_length E (deref uint16 p (mem s)) = 4 ->
      tlb_insn_tag s (slot (wrap64 (pc + 2))) = vpn_of (wrap64 (pc + 2)) ->
      cached_ptr s (wrap64 (pc + 2)) = p + 2 ->
      cached = to_reg (as_type int32 (read_bytes 4 p (mem s)))).
Proof.
  intros Hp H0 p cached. subst cached.
  assert (Htail : forall bits,
    (let* fetch := with_proc (fun p0 => ret {| func := decode_insn p0 bits; insn := bits |}) in
     let* _ := modify (set_entry_tag entry pc) in
     let* _ := modify (set_entry_data entry fetch) in
     let* interested :=
       gets (fun s0 => tracer_interested_in_range s0 (mem_to_addr E p)
                         (wrap64 (mem_to_addr E p + 1)) FETCH) in
     let* _ := (if interested
                then let* _ := modify (set_entry_tag entry (wrap64 (-1))) in
                     log (call_trace (mem_to_addr E p)
                            (insn_length E (deref uint16 p (mem s))) FETCH)
                else ret tt) in
     ret entry) s
    = (Normal entry,
       refilled E pc entry s pr p (insn_length E (deref uint16 p (mem s))) bits)).
  { intros bits. unfold bind, with_proc, modify, gets, log, ret. rewrite Hp.
    cbn [tracer_interested_in_range set_entry_data set_entry_tag set_icache].
    unfold refilled. cbv zeta.
    destruct (tracer_interested_in_range s _ _ FETCH); reflexivity. }
  assert (Hinsn : forall bits,
    insn (entry_data (icache (refilled E pc entry s pr p
                                (insn_length E (deref uint16 p (mem s))) bits) entry))
    = bits).
  { intros bits.
    destruct (refilled_frame E pc entry s pr p
                (insn_length E (deref uint16 p (mem s))) bits) as (_ & _ & Hd & _).
    rewrite Hd. reflexivity. }
  split.
  - intros Hlen. unfold refill_icache.
    unfold bind at 1. rewrite (translate_insn_addr_hit E pc s H0). fold p.
    rewrite bind_gets. cbv zeta.
    rewrite Hlen. cbn [Z.eqb Pos.eqb].
    unfold bind at 1. unfold ret at 1. rewrite Hlen in Htail. rewrite Htail.
    cbn [snd]. rewrite Hlen in Hinsn. rewrite Hinsn.
    unfold deref. f_equal. apply as_type_as_type. reflexivity.
  - intros Hlen H2 Hptr. unfold refill_icache.
    unfold bind at 1. rewrite (translate_insn_addr_hit E pc s H0). fold p.
    rewrite bind_gets. cbv zeta.
    rewrite Hlen. cbn [Z.eqb Pos.eqb].
    unfold bind at 1, bind at 1. rewrite (fetch_half_hit E int16 _ s H2).
    unfold ret at 1. rewrite Hlen in Htail. rewrite Htail.
    cbn [snd]. rewrite Hlen in Hinsn. rewrite Hinsn.
    rewrite Hptr. unfold deref at 1 2. cbn [sizeof].
    change (Z.to_nat 2) with 2%nat.
    rewrite read_bytes_4_halves.
    pose proof (read_bytes_range 2 p (mem s)) as R0.
    pose proof (read_bytes_range 2 (p + 2) (mem s)) as R1.
    change (256 ^ Z.of_nat 2) with (2 ^ 16) in R0, R1.
    unfold to_reg at 1.
    change (wrap64 (as_type int16 (read_bytes 2 (p + 2) (mem s))))
      with (to_reg (as_type int16 (read_bytes 2 (p + 2) (mem s)))).
    apply sign_extended_word; assumption.
Qed.

Lemma refill_icache_short_insn_bits_witness :
  insn (entry_data
          (icache (snd (refill_icache env0 0x1000 (icache_index env0 0x1000)
                          (machine_1 (Some (hart no_trigger 0)) empty_tlb 1 None false
                             not_interested negative_insn_at_0x1000)))
             (icache_index env0 0x1000)))
  = 0xfffffffffff00513.
Proof.
  destruct (refill_icache_short_insn_bits env0 0x1000 (icache_index env0 0x1000)
              (machine_1 (Some (hart no_trigger 0)) empty_tlb 1 None false
                 not_interested negative_insn_at_0x1000) (hart no_trigger 0))
    as [_ Hfour].
  - reflexivity.
  - vm_compute. reflexivity.
  - rewrite Hfour.
    + vm_compute. reflexivity.
    + vm_compute. reflexivity.
    + vm_compute. reflexivity.
    + vm_compute. reflexivity.
Defined.

(** ** [load_insn] *)

Lemma load_insn_on_hits
    (E : environment) (pc : reg_t) (u : icache_entry_t) (s : machine) (pr : processor_t) :
  proc s = Some pr ->
  tlb_insn_tag s (slot pc) = vpn_of pc ->
  (forall k, In k [2; 4; 6] ->
     tlb_insn_tag s (slot (wrap64 (pc + k))) = vpn_of (wrap64 (pc + k))) ->
  load_insn E pc u s
    = (Normal {| func := decode_insn pr (assembled_bits E s pc);
                 insn := assembled_bits E s pc |},
       let paddr := mem_to_addr E (cached_ptr s pc) in
       if tracer_interested_in_range s paddr (wrap64 (paddr + 1)) FETCH
       then set_calls (calls s ++ [call_trace paddr
                                     (insn_length E (deref uint16 (cached_ptr s pc) (mem s)))
                                     FETCH]) s
       else s).
Proof.
  intros Hp H0 Hk.
  pose proof (Hk 2 ltac:(cbn; tauto)) as H2.
  pose proof (Hk 4 ltac:(cbn; tauto)) as H4.
  pose proof (Hk 6 ltac:(cbn; tauto)) as H6.
  unfold load_insn. unfold bind at 1. unfold refill_icache_local.
  unfold bind at 1. rewrite (translate_insn_addr_hit E pc s H0).
  rewrite bind_gets. cbv zeta.
  set (insn0 := deref uint16 (cached_ptr s pc) (mem s)).
  assert (Hbits :
    (if insn_length E insn0 =? 4
     then let* h2 := fetch_half E int16 (wrap64 (pc + 2)) in
          ret (Z.lor insn0 (shl64 h2 16))
     else if insn_length E insn0 =? 2
     then ret (to_reg (as_type int16 insn0))
     else if insn_length E insn0 =? 6
     then let* h4 := fetch_half E int16 (wrap64 (pc + 4)) in
          let* h2 := fetch_half E uint16 (wrap64 (pc + 2)) in
          ret (Z.lor (Z.lor insn0 (shl64 h4 32)) (shl64 h2 16))
     else let* h6 := fetch_half E int16 (wrap64 (pc + 6)) in
          let* h4 := fetch_half E uint16 (wrap64 (pc + 4)) in
          let* h2 := fetch_half E uint16 (wrap64 (pc + 2)) in
          ret (Z.lor (Z.lor (Z.lor insn0 (shl64 h6 48)) (shl64 h4 32)) (shl64 h2 16))) s
    = (Normal (assembled_bits E s pc), s)).
  { unfold assembled_bits. cbv zeta. fold insn0.
    destruct (insn_length E insn0 =? 4).
    { unfold bind. rewrite (fetch_half_hit E int16 _ s H2). reflexivity. }
    destruct (insn_length E insn0 =? 2).
    { reflexivity. }
    destruct (insn_length E insn0 =? 6).
    { unfold bind. rewrite (fetch_half_hit E int16 _ s H4).
      rewrite (fetch_half_hit E uint16 _ s H2). reflexivity. }
    unfold bind. rewrite (fetch_half_hit E int16 _ s H6).
    rewrite (fetch_half_hit E uint16 _ s H4).
    rewrite (fetch_half_hit E uint16 _ s H2). reflexivity. }
  unfold bind at 1. rewrite Hbits.
  unfold bind, with_proc, modify, gets, log, ret. rewrite Hp.
  cbv zeta.
  destruct (tracer_interested_in_range s _ _ FETCH); reflexivity.
Qed.

(** X13: [load_insn] fetches without the cache.  Whenever the refill of a
    cache slot for [pc] completes, [load_insn pc] from the same state
    returns the instruction the refill would have cached, whatever its
    uninitialised local held; and when all halfwords hit in the
    instruction TLB it leaves the whole instruction cache, memory and the
    TLB as they were. *)
Theorem load_insn_agrees_with_refill
    (E : environment) (pc : reg_t) (entry : Z) (u : icache_entry_t) (s : machine) :
  (forall (e : Z) (s' : machine),
     refill_icache E pc entry s = (Normal e, s') ->
     fst (load_insn E pc u s) = Normal (entry_data (icache s' entry)))
  /\ (forall pr : processor_t,
        proc s = Some pr ->
        tlb_insn_tag s (slot pc) = vpn_of pc ->
        (forall k, In k [2; 4; 6] ->
           tlb_insn_tag s (slot (wrap64 (pc + k))) = vpn_of (wrap64 (pc + k))) ->
        icache (snd (load_insn E pc u s)) = icache s
        /\ mem (snd (load_insn E pc u s)) = mem s
        /\ tlb_data (snd (load_insn E pc u s)) = tlb_data s
        /\ tlb_insn_tag (snd (load_insn E pc u s)) = tlb_insn_tag s).
Proof.
  split.
  - intros e s' H. unfold refill_icache in H.
    apply bind_normal_inv in H. destruct H as (iaddr & s1 & Htr & H).
    rewrite bind_gets in H. cbv zeta in H.
    apply bind_normal_inv in H. destruct H as (bits & s2 & Hbits & H).
    unfold load_insn. unfold bind at 1. unfold refill_icache_local.
    unfold bind at 1. rewrite Htr. rewrite bind_gets. cbv zeta.
    unfold bind at 1. rewrite Hbits.
    unfold bind, with_proc, modify, gets, log, ret in H |- *.
    destruct (proc s2) as [pr |]; [| discriminate].
    cbn [tracer_interested_in_range set_entry_data set_entry_tag set_icache] in H.
    cbv zeta.
    destruct (tracer_interested_in_range s2 _ _ FETCH);
      injection H as _ <-;
      cbn [fst icache set_calls set_icache set_entry_tag set_entry_data entry_data];
      rewrite ?Z.eqb_refl; reflexivity.
  - intros pr Hp H0 Hk.
    rewrite (load_insn_on_hits E pc u s pr Hp H0 Hk). cbn [snd]. cbv zeta.
    destruct (tracer_interested_in_range s _ _ FETCH); repeat split.
Qed.

Lemma load_insn_agrees_with_refill_witness :
  fst (load_insn env0 0x1000 invalid_entry (fetch_machine watch_0x1000))
  = Normal (entry_data
              (icache (snd (refill_icache env0 0x1000 (icache_index env0 0x1000)
                              (fetch_machine watch_0x1000)))
                 (icache_index env0 0x1000)))
  /\ icache (snd (load_insn env0 0x1000 invalid_entry (fetch_machine watch_0x1000)))
     = icache (fetch_machine watch_0x1000).
Proof.
  destruct (load_insn_agrees_with_refill env0 0x1000 (icache_index env0 0x1000)
              invalid_entry (fetch_machine watch_0x1000)) as [Hagree Hsame].
  split.
  - apply (Hagree (icache_index env0 0x1000)). vm_compute. reflexivity.
  - apply (Hsame (hart no_trigger 0)).
    + reflexivity.
    + vm_compute. reflexivity.
    + intros k Hk. cbn in Hk.
      destruct Hk as [<- | [<- | [<- | []]]]; vm_compute; reflexivity.
Defined.

(** * Further properties of the permission logic

    The statements of [check_permission] below its leading [return;]
    (mmu.h:273-328). *)

(** X14: the permission logic only reads.  Whatever it decides, the state
    it ends in is the state it started in: it sets no dirty bit, and
    changes no TLB entry and no permission record. *)
Theorem check_permission_rest_reads_only
    (E : environment) (vaddr : reg_t) (type : access_type) (s : machine) :
  snd (check_permission_rest E vaddr type s) = s.
Proof.
  unfold check_permission_rest, with_proc, bind, gets.
  destruct (proc s) as [pr |]; [| reflexivity].
  cbv zeta.
  repeat match goal with
         | |- context [if ?b then _ else _] => destruct b
         | |- context [match ?o with Some _ => _ | None => _ end] => destruct o
         | |- context [match ?t with LOAD => _ | STORE => _ | FETCH => _ end] => destruct t
         end; reflexivity.
Qed.

(** The decision of the permission logic outside machine mode, for a page
    that has a permission record. *)
Lemma check_permission_rest_decision
    (E : environment) (vaddr : reg_t) (type : access_type) (s : machine)
    (pr : processor_t) (i : Z) :
  let enc := encoding E in
  let m := meta (tlb_of type s) i in
  let supervisor := prv pr =? PRV_S enc in
  let pum := nonzero (get_field enc (mstatus pr) (MSTATUS_PUM enc)) in
  let mxr := nonzero (get_field enc (mstatus pr) (MSTATUS_MXR enc)) in
  let no_priv := if has_flag m (PTE_U enc) then supervisor && pum else negb supervisor in
  let no_valid := negb (has_flag m (PTE_V enc))
                  || (negb (has_flag m (PTE_R enc)) && has_flag m (PTE_W enc)) in
  proc s = Some pr ->
  (dcsr_cause pr =? 0) && nonzero (get_field enc (mstatus pr) (MSTATUS_MPRV enc)) = false ->
  get_field enc (mstatus pr) (MSTATUS_VM enc) <> VM_MBARE enc ->
  prv pr <> PRV_M enc ->
  tag_map (tlb_of type s)
    !! vm_tag_mask E (get_field enc (mstatus pr) (MSTATUS_VM enc)) (vpn_of vaddr) = Some i ->
  check_permission_rest E vaddr type s =
    (match type with
     | FETCH =>
         if no_priv || no_valid || negb (has_flag m (PTE_X enc))
         then Thrown (access_fault FETCH vaddr) else Normal Next
     | LOAD =>
         if no_priv || no_valid
            || (negb (has_flag m (PTE_R enc)) && negb (mxr && has_flag m (PTE_X enc)))
         then Thrown (access_fault LOAD vaddr) else Normal Next
     | STORE =>
         if negb no_priv && negb no_valid && has_flag m (PTE_W enc)
            && negb (has_flag m (PTE_D enc))
         then Normal Return
         else if no_priv || no_valid
                 || negb (has_flag m (PTE_R enc) && has_flag m (PTE_W enc))
         then Thrown (access_fault STORE vaddr) else Normal Next
     end, s).
Proof.
  intros enc m supervisor pum mxr no_priv no_valid Hp Hmprv Hvm Hprv Hmap.
  unfold check_permission_rest, with_proc. rewrite Hp. fold enc.
  subst no_priv no_valid m supervisor pum mxr. unfold has_flag.
  destruct type; cbn [tlb_of] in *; rewrite ?Hmprv;
    (destruct (Z.eqb_spec (get_field enc (mstatus pr) (MSTATUS_VM enc)) (VM_MBARE enc));
       [contradiction |]);
    (destruct (Z.eqb_spec (prv pr) (PRV_M enc)); [contradiction |]);
    unfold bind, gets; fold (vpn_of vaddr); rewrite Hmap; cbv zeta;
    repeat match goal with
           | |- context [if ?b then _ else _] => destruct b
           end; reflexivity.
Qed.

(** X15: when the permission logic lets an access pass unexamined.  In
    bare mode, in machine mode without the [MPRV] override, and for a page
    that has no permission record, it returns without a fault, for every
    access type. *)
Theorem permission_logic_passes_unexamined
    (E : environment) (vaddr : reg_t) (type : access_type) (s : machine)
    (pr : processor_t) :
  let enc := encoding E in
  proc s = Some pr ->
  (get_field enc (mstatus pr) (MSTATUS_VM enc) = VM_MBARE enc ->
     check_permission_rest E vaddr type s = (Normal Return, s))
  /\ (prv pr = PRV_M enc ->
      (dcsr_cause pr =? 0) && nonzero (get_field enc (mstatus pr) (MSTATUS_MPRV enc)) = false ->
      check_permission_rest E vaddr type s = (Normal Return, s))
  /\ (tag_map (tlb_of type s)
        !! vm_tag_mask E (get_field enc (mstatus pr) (MSTATUS_VM enc)) (vpn_of vaddr) = None ->
      check_permission_rest E vaddr type s = (Normal Return, s)).
Proof.
  intros enc Hp. unfold check_permission_rest, with_proc. rewrite Hp. fold enc.
  split; [| split].
  - intros Hbare. rewrite Hbare, Z.eqb_refl, Z.eqb_refl. reflexivity.
  - intros Hm Hmprv.
    destruct type; rewrite ?Hmprv, Hm;
      destruct (get_field enc (mstatus pr) (MSTATUS_VM enc) =? VM_MBARE enc);
      rewrite Z.eqb_refl; reflexivity.
  - intros Hnone.
    destruct type; cbn [tlb_of] in Hnone;
      repeat match goal with
             | |- context [if ?b then _ else _] => destruct b
             end; try reflexivity;
      unfold bind, gets; fold (vpn_of vaddr); rewrite Hnone; reflexivity.
Qed.

Lemma permission_logic_passes_unexamined_witness :
  check_permission_rest env0 0x1000 STORE
    (machine_1 (Some machine_mode_hart) read_only_page_1 1 None true not_interested
       zero_memory)
  = (Normal Return,
     machine_1 (Some machine_mode_hart) read_only_page_1 1 None true not_interested
       zero_memory).
Proof.
  destruct (permission_logic_passes_unexamined env0 0x1000 STORE
              (machine_1 (Some machine_mode_hart) read_only_page_1 1 None true
                 not_interested zero_memory) machine_mode_hart eq_refl)
    as [Hbare _].
  apply Hbare. vm_compute. reflexivity.
Defined.

(** X16: what the permission logic refuses outright.  Outside machine
    mode, a page whose record is not valid, or is writable without being
    readable, or is out of reach of the privilege (a user page for a
    supervisor under [PUM], any other page for a user) faults on every
    access type, with the access fault of that type and the virtual
    address. *)
Theorem permission_logic_refuses
    (E : environment) (vaddr : reg_t) (type : access_type) (s : machine)
    (pr : processor_t) (i : Z) :
  let enc := encoding E in
  let m := meta (tlb_of type s) i in
  let supervisor := prv pr =? PRV_S enc in
  let pum := nonzero (get_field enc (mstatus pr) (MSTATUS_PUM enc)) in
  proc s = Some pr ->
  (dcsr_cause pr =? 0) && nonzero (get_field enc (mstatus pr) (MSTATUS_MPRV enc)) = false ->
  get_field enc (mstatus pr) (MSTATUS_VM enc) <> VM_MBARE enc ->
  prv pr <> PRV_M enc ->
  tag_map (tlb_of type s)
    !! vm_tag_mask E (get_field enc (mstatus pr) (MSTATUS_VM enc)) (vpn_of vaddr) = Some i ->
  has_flag m (PTE_V enc) = false
    \/ (has_flag m (PTE_R enc) = false /\ has_flag m (PTE_W enc) = true)
    \/ (has_flag m (PTE_U enc) = true /\ supervisor && pum = true)
    \/ (has_flag m (PTE_U enc) = false /\ supervisor = false) ->
  check_permission_rest E vaddr type s = (Thrown (access_fault type vaddr), s).
Proof.
  intros enc m supervisor pum Hp Hmprv Hvm Hprv Hmap Hbad.
  rewrite (check_permission_rest_decision E vaddr type s pr i Hp Hmprv Hvm Hprv Hmap).
  fold enc. fold m. fold supervisor. fold pum. cbv zeta.
  destruct Hbad as [Hv | [[Hr Hw] | [[Hu Hs] | [Hu Hs]]]].
  - rewrite Hv.
    destruct type; cbn [negb orb andb]; rewrite ?orb_true_r, ?andb_false_r; reflexivity.
  - rewrite Hr, Hw.
    destruct type; cbn [negb orb andb]; rewrite ?orb_true_r, ?andb_false_r;
      cbn [negb orb andb]; rewrite ?orb_true_r; reflexivity.
  - rewrite Hu, Hs. destruct type; cbn [negb orb andb]; reflexivity.
  - rewrite Hu, Hs. destruct type; cbn [negb orb andb]; reflexivity.
Qed.

Lemma permission_logic_refuses_witness :
  check_permission_rest env0 0x1000 LOAD
    (machine_1 (Some (hart no_trigger 0)) write_only_page_1 1 None true not_interested
       zero_memory)
  = (Thrown (trap_load_access_fault 0x1000),
     machine_1 (Some (hart no_trigger 0)) write_only_page_1 1 None true not_interested
       zero_memory).
Proof.
  apply (permission_logic_refuses env0 0x1000 LOAD
           (machine_1 (Some (hart no_trigger 0)) write_only_page_1 1 None true
              not_interested zero_memory) (hart no_trigger 0) 0).
  - reflexivity.
  - vm_compute. reflexivity.
  - vm_compute. discriminate.
  - vm_compute. discriminate.
  - vm_compute. reflexivity.
  - right. left. vm_compute. split; reflexivity.
Defined.

(** X17: what the permission logic decides for a valid page within reach
    of the privilege.  A fetch faults exactly when the page is not
    executable; a load exactly when it is not readable and not made
    readable by [MXR] on an executable page; a store exactly when it is not
    writable.  A clear dirty bit makes the store path return early, never
    fault. *)
Theorem permission_logic_decides_valid_page
    (E : environment) (vaddr : reg_t) (type : access_type) (s : machine)
    (pr : processor_t) (i : Z) :
  let enc := encoding E in
  let m := meta (tlb_of type s) i in
  let supervisor := prv pr =? PRV_S enc in
  let pum := nonzero (get_field enc (mstatus pr) (MSTATUS_PUM enc)) in
  let mxr := nonzero (get_field enc (mstatus pr) (MSTATUS_MXR enc)) in
  proc s = Some pr ->
  (dcsr_cause pr =? 0) && nonzero (get_field enc (mstatus pr) (MSTATUS_MPRV enc)) = false ->
  get_field enc (mstatus pr) (MSTATUS_VM enc) <> VM_MBARE enc ->
  prv pr <> PRV_M enc ->
  tag_map (tlb_of type s)
    !! vm_tag_mask E (get_field enc (mstatus pr) (MSTATUS_VM enc)) (vpn_of vaddr) = Some i ->
  has_flag m (PTE_V enc) = true ->
  (has_flag m (PTE_W enc) = true -> has_flag m (PTE_R enc) = true) ->
  (if has_flag m (PTE_U enc) then supervisor && pum else negb supervisor) = false ->
  let refused :=
    match type with
    | FETCH => negb (has_flag m (PTE_X enc))
    | LOAD => negb (has_flag m (PTE_R enc)) && negb (mxr && has_flag m (PTE_X enc))
    | STORE => negb (has_flag m (PTE_W enc))
    end in
  (refused = true ->
     check_permission_rest E vaddr type s = (Thrown (access_fault type vaddr), s))
  /\ (refused = false ->
      exists f : flow, check_permission_rest E vaddr type s = (Normal f, s))
  /\ (type = STORE -> has_flag m (PTE_W enc) = true -> has_flag m (PTE_D enc) = false ->
      check_permission_rest E vaddr type s = (Normal Return, s)).
Proof.
  intros enc m supervisor pum mxr Hp Hmprv Hvm Hprv Hmap Hv Hwr Hpriv refused.
  rewrite (check_permission_rest_decision E vaddr type s pr i Hp Hmprv Hvm Hprv Hmap).
  fold enc. fold m. fold supervisor. fold pum. fold mxr. cbv zeta.
  rewrite Hpriv, Hv. subst refused. cbn [negb orb andb].
  destruct (has_flag m (PTE_W enc)) eqn:Hw.
  - rewrite (Hwr eq_refl). cbn [negb orb andb].
    split; [| split].
    + destruct type; try discriminate.
      intros Hx. rewrite Hx. reflexivity.
    + destruct type; intros Hx; try rewrite Hx;
        try (destruct (has_flag m (PTE_D enc))); eexists; reflexivity.
    + intros -> _ Hd. rewrite Hd. reflexivity.
  - cbn [negb orb andb]. rewrite ?andb_false_r. cbn [negb orb andb].
    split; [| split].
    + destruct type; intros Hx; rewrite ?Hx; rewrite ?orb_true_r; reflexivity.
    + destruct type; intros Hx; try discriminate; rewrite Hx; eexists; reflexivity.
    + intros _ Habs. discriminate.
Qed.

Lemma permission_logic_decides_valid_page_witness :
  check_permission_rest env0 0x1000 STORE
    (machine_1 (Some (hart no_trigger 0)) read_only_page_1 1 None true not_interested
       zero_memory)
  = (Thrown (trap_store_access_fault 0x1000),
     machine_1 (Some (hart no_trigger 0)) read_only_page_1 1 None true not_interested
       zero_memory).
Proof.
  destruct (permission_logic_decides_valid_page env0 0x1000 STORE
              (machine_1 (Some (hart no_trigger 0)) read_only_page_1 1 None true
                 not_interested zero_memory) (hart no_trigger 0) 0)
    as [Hrefused _].
  - reflexivity.
  - vm_compute. reflexivity.
  - vm_compute. discriminate.
  - vm_compute. discriminate.
  - vm_compute. reflexivity.
  - vm_compute. reflexivity.
  - vm_compute. discriminate.
  - vm_compute. reflexivity.
  - apply Hrefused. vm_compute. reflexivity.
Defined.

(** X18: the [switch] on the translation mode has no [break], yet the
    masks nest: the tag is the virtual page number reduced to 20 bits under
    Sv32, 27 bits under Sv39, 36 bits under Sv48, and whole otherwise. *)
Theorem vm_tag_mask_widths (E : environment) (vm t : reg_t) :
  let enc := encoding E in
  (vm = VM_SV32 enc -> vm_tag_mask E vm t = t mod 2 ^ 20)
  /\ (vm <> VM_SV32 enc -> vm = VM_SV39 enc -> vm_tag_mask E vm t = t mod 2 ^ 27)
  /\ (vm <> VM_SV32 enc -> vm <> VM_SV39 enc -> vm = VM_SV48 enc ->
      vm_tag_mask E vm t = t mod 2 ^ 36)
  /\ (vm <> VM_SV32 enc -> vm <> VM_SV39 enc -> vm <> VM_SV48 enc ->
      vm_tag_mask E vm t = t).
Proof.
  intros enc. unfold vm_tag_mask. fold enc.
  change (Z.shiftl 1 20 - 1) with (Z.ones 20).
  change (Z.shiftl 1 27 - 1) with (Z.ones 27).
  change (Z.shiftl 1 36 - 1) with (Z.ones 36).
  cbv zeta. rewrite !Z.land_ones by lia.
  pose proof (Z.mod_pos_bound t (2 ^ 20) ltac:(lia)) as B20.
  pose proof (Z.mod_pos_bound t (2 ^ 27) ltac:(lia)) as B27.
  split; [| split; [| split]].
  - intros ->. rewrite Z.eqb_refl.
    rewrite (Z.mod_small (t mod 2 ^ 20) (2 ^ 27)) by lia.
    apply Z.mod_small. lia.
  - intros H32 ->. destruct (Z.eqb_spec (VM_SV39 enc) (VM_SV32 enc)); [contradiction |].
    rewrite Z.eqb_refl. apply Z.mod_small. lia.
  - intros H32 H39 ->.
    destruct (Z.eqb_spec (VM_SV48 enc) (VM_SV32 enc)); [contradiction |].
    destruct (Z.eqb_spec (VM_SV48 enc) (VM_SV39 enc)); [contradiction |].
    rewrite Z.eqb_refl. reflexivity.
  - intros H32 H39 H48.
    destruct (Z.eqb_spec vm (VM_SV32 enc)); [contradiction |].
    destruct (Z.eqb_spec vm (VM_SV39 enc)); [contradiction |].
    destruct (Z.eqb_spec vm (VM_SV48 enc)); [contradiction |].
    reflexivity.
Qed.

Lemma vm_tag_mask_widths_witness :
  vm_tag_mask env0 9 0xfffffffffffff = 0x7ffffff.
Proof.
  destruct (vm_tag_mask_widths env0 9 0xfffffffffffff) as [_ [H39 _]].
  rewrite H39.
  - vm_compute. reflexivity.
  - vm_compute. discriminate.
  - vm_compute. reflexivity.
Defined.

(** * Further properties of the device bus *)

Lemma lower_bound_ge {V : Type} (k : reg_t) (m : list (reg_t * V)) (k1 : reg_t) (v1 : V) :
  lower_bound k m = Some (k1, v1) -> k <= k1.
Proof.
  induction m as [| [k0 v0] r IH]; cbn [lower_bound]; intros H.
  - discriminate.
  - destruct (Z.leb_spec k k0).
    + injection H as <- _. assumption.
    + apply IH, H.
Qed.


Lemma neg64_involutive (a : reg_t) : 0 <= a < 2 ^ 64 -> neg64 (neg64 a) = a.
Proof.
  intros Ha. destruct (Z.eq_dec a 0) as [-> | Hnz].
  - reflexivity.
  - rewrite (neg64_nonzero a) by lia. rewrite neg64_nonzero by lia. lia.
Qed.

(** X19: a device answers at its own base.  Right after
    [add_device(base, dev)], a load or a store at the address [base]
    reaches [dev] at offset 0, for every base (0 included) and whatever
    was registered before. *)
Theorem bus_device_answers_at_its_base
    (a : reg_t) (dev : abstract_device_t) (b : bus_t) (l : nat) (bytes : list Z) :
  0 <= a < 2 ^ 64 ->
  bus_t_load (bus_t_add_device a dev b) a l bytes = load dev 0 l bytes
  /\ bus_t_store (bus_t_add_device a dev b) a l bytes = store dev 0 l bytes.
Proof.
  intros Ha. unfold bus_t_load, bus_t_store, bus_t_add_device. cbn [devices].
  rewrite lower_bound_map_assign.
  assert (Hfound : match lower_bound (neg64 a) (devices b) with
                   | Some (k1, v1) =>
                       if (neg64 a <=? neg64 a) && (neg64 a <=? k1)
                       then Some (neg64 a, dev) else Some (k1, v1)
                   | None => if neg64 a <=? neg64 a then Some (neg64 a, dev) else None
                   end = Some (neg64 a, dev)).
  { destruct (lower_bound (neg64 a) (devices b)) as [[k1 v1] |] eqn:Hlb.
    - apply lower_bound_ge in Hlb. rewrite Z.leb_refl.
      destruct (Z.leb_spec (neg64 a) k1); [reflexivity | lia].
    - rewrite Z.leb_refl. reflexivity. }
  rewrite Hfound, (neg64_involutive a Ha), Z.sub_diag.
  split; reflexivity.
Qed.

Lemma bus_device_answers_at_its_base_witness :
  bus_t_load (bus_t_add_device 0 (uart_dev_t true) (bus_of [(0x1000, uart_dev_t false)]))
    0 2 [7; 7; 7]
  = (true, [0; 0; 7]).
Proof.
  destruct (bus_device_answers_at_its_base 0 (uart_dev_t true)
              (bus_of [(0x1000, uart_dev_t false)]) 2 [7; 7; 7]) as [Hload _].
  - vm_compute. split; [discriminate | reflexivity].
  - rewrite Hload. vm_compute. reflexivity.
Defined.

Lemma map_assign_twice {V : Type} (k : reg_t) (v v' : V) (m : list (reg_t * V)) :
  map_assign k v (map_assign k v' m) = map_assign k v m.
Proof.
  induction m as [| [k0 v0] r IH]; cbn [map_assign].
  - rewrite Z.ltb_irrefl, Z.eqb_refl. reflexivity.
  - destruct (Z.ltb_spec k k0) as [Hlt | Hge].
    + cbn [map_assign]. rewrite Z.ltb_irrefl, Z.eqb_refl. reflexivity.
    + destruct (Z.eqb_spec k k0) as [Heq | Hne].
      * cbn [map_assign]. rewrite Z.ltb_irrefl, Z.eqb_refl. reflexivity.
      * cbn [map_assign].
        destruct (Z.ltb_spec k k0); [lia |].
        destruct (Z.eqb_spec k k0); [contradiction |].
        rewrite IH. reflexivity.
Qed.

(** X20: registering a device at a base that already has one replaces it:
    the bus is the same as if the earlier registration had never been
    made. *)
Theorem bus_reregistration_replaces
    (a : reg_t) (dev dev' : abstract_device_t) (b : bus_t) :
  bus_t_add_device a dev (bus_t_add_device a dev' b) = bus_t_add_device a dev b.
Proof.
  unfold bus_t_add_device. cbn [devices]. rewrite map_assign_twice. reflexivity.
Qed.

Lemma lower_bound_ignores_zero_base
    (a : reg_t) (regs : list (reg_t * abstract_device_t)) :
  1 <= a < 2 ^ 64 ->
  lower_bound (neg64 a) (devices (bus_of regs))
    = lower_bound (neg64 a) (devices (bus_of (nonzero_bases regs))).
Proof.
  intros Ha. induction regs as [| [b d] r IH].
  - reflexivity.
  - change (bus_of ((b, d) :: r)) with (bus_t_add_device b d (bus_of r)).
    change (nonzero_bases ((b, d) :: r))
      with (if negb (b =? 0) then (b, d) :: nonzero_bases r else nonzero_bases r).
    unfold bus_t_add_device at 1. cbn [devices].
    rewrite lower_bound_map_assign, IH.
    destruct (Z.eqb_spec b 0) as [-> | Hnz]; cbn [negb].
    + change (neg64 0) with 0. rewrite (neg64_nonzero a Ha).
      destruct (Z.leb_spec (2 ^ 64 - a) 0); [lia |]. cbn [andb].
      destruct (lower_bound (2 ^ 64 - a) (devices (bus_of (nonzero_bases r))))
        as [[k1 v1] |]; reflexivity.
    + change (bus_of ((b, d) :: nonzero_bases r))
        with (bus_t_add_device b d (bus_of (nonzero_bases r))).
      unfold bus_t_add_device at 1. cbn [devices].
      rewrite lower_bound_map_assign. reflexivity.
Qed.

Lemma nonzero_bases_range (regs : list (reg_t * abstract_device_t)) :
  Forall (fun r => 0 <= fst r < 2 ^ 64) regs ->
  Forall (fun r => 1 <= fst r < 2 ^ 64) (nonzero_bases regs).
Proof.
  intros H. induction H as [| [b d] r Hb Hr IH]; cbn [nonzero_bases List.filter fst].
  - constructor.
  - destruct (Z.eqb_spec b 0); cbn [negb].
    + exact IH.
    + constructor; [cbn [fst] in *; lia | exact IH].
Qed.

(** X21: how the bus serves a nonzero address.  It reaches the device
    with the greatest nonzero base not exceeding the address, at the offset
    [addr - base], and returns [false] when there is none; a device
    registered at base 0 is never reached from a nonzero address. *)
Theorem bus_dispatch_nonzero_address
    (a : reg_t) (regs : list (reg_t * abstract_device_t)) (l : nat) (bytes : list Z) :
  1 <= a < 2 ^ 64 ->
  Forall (fun r => 0 <= fst r < 2 ^ 64) regs ->
  bus_t_load (bus_of regs) a l bytes
    = match greatest_base_le a (nonzero_bases regs) with
      | Some (base, dev) => load dev (a - base) l bytes
      | None => (false, bytes)
      end
  /\ bus_t_store (bus_of regs) a l bytes
    = match greatest_base_le a (nonzero_bases regs) with
      | Some (base, dev) => store dev (a - base) l bytes
      | None => (false, [])
      end.
Proof.
  intros Ha Hall.
  pose proof (nonzero_bases_range regs Hall) as Hnz.
  unfold bus_t_load, bus_t_store.
  rewrite (lower_bound_ignores_zero_base a regs Ha).
  rewrite (lower_bound_greatest_base a (nonzero_bases regs) Ha Hnz).
  destruct (greatest_base_le a (nonzero_bases regs)) as [[b d] |] eqn:Hg;
    cbn [option_map fst snd].
  - destruct (greatest_base_le_In a (nonzero_bases regs) b d Hg) as [Hin Hle].
    rewrite List.Forall_forall in Hnz. specialize (Hnz (b, d) Hin). cbn [fst] in Hnz.
    rewrite (neg64_involutive b) by lia.
    assert (Hoff : wrap64 (a - b) = a - b) by (apply Z.mod_small; lia).
    rewrite Hoff. split; reflexivity.
  - split; reflexivity.
Qed.

Lemma bus_dispatch_nonzero_address_witness :
  bus_t_load (bus_of [(0, uart_dev_t true); (0x1000, uart_dev_t false)]) 0x1004 1 [7]
  = (true, [255])
  /\ bus_t_load (bus_of [(0, uart_dev_t true); (0x1000, uart_dev_t false)]) 0x4 1 [7]
  = (false, [7]).
Proof.
  split.
  - destruct (bus_dispatch_nonzero_address 0x1004
                [(0, uart_dev_t true); (0x1000, uart_dev_t false)] 1 [7]) as [Hload _].
    + vm_compute. split; discriminate || reflexivity.
    + repeat constructor; vm_compute; discriminate || reflexivity.
    + rewrite Hload. vm_compute. reflexivity.
  - destruct (bus_dispatch_nonzero_address 0x4
                [(0, uart_dev_t true); (0x1000, uart_dev_t false)] 1 [7]) as [Hload _].
    + vm_compute. split; discriminate || reflexivity.
    + repeat constructor; vm_compute; discriminate || reflexivity.
    + rewrite Hload. vm_compute. reflexivity.
Defined.





(** ** The UART *)

Lemma fill_bytes_S (l : nat) (v : Z) (bytes : list Z) :
  fill_bytes (S l) v bytes = <[l := v]> (fill_bytes l v bytes).
Proof.
  unfold fill_bytes. rewrite List.seq_S, fold_left_app. reflexivity.
Qed.

Lemma fill_bytes_spec (l : nat) (v : Z) (bytes : list Z) :
  length (fill_bytes l v bytes) = length bytes
  /\ (forall i : nat, (i < l)%nat -> (i < length bytes)%nat ->
        fill_bytes l v bytes !! i = Some v)
  /\ (forall i : nat, (l <= i)%nat -> fill_bytes l v bytes !! i = bytes !! i).
Proof.
  induction l as [| l (IHlen & IHin & IHout)].
  - split; [reflexivity | split; [intros i Hi; lia | intros i _; reflexivity]].
  - rewrite fill_bytes_S. split; [| split].
    + rewrite length_insert. exact IHlen.
    + intros i Hi Hb. destruct (Nat.eq_dec i l) as [-> | Hne].
      * apply list_lookup_insert_eq. rewrite IHlen. exact Hb.
      * rewrite list_lookup_insert_ne by congruence. apply IHin; [lia | exact Hb].
    + intros i Hi. rewrite list_lookup_insert_ne by lia. apply IHout. lia.
Qed.

(** X23: the UART's registers.  A load at offset 0 or 4 succeeds and
    overwrites the first [len] bytes of the buffer with 0x00 or 0xff,
    leaving the rest and the length as they were; a load at any other
    offset fails and leaves the buffer alone.  A store succeeds exactly at
    the offsets 0, 4, 8, 12 and 16, and writes a character to [stdout] only
    at offset 0 of a printing UART: the first byte of the buffer. *)
Theorem uart_registers (print : bool) (a : reg_t) (l : nat) (bytes : list Z) :
  (a = 0 \/ a = 4 ->
     fst (uart_dev_t_load a l bytes) = true
     /\ length (snd (uart_dev_t_load a l bytes)) = length bytes
     /\ (forall i : nat, (i < l)%nat -> (i < length bytes)%nat ->
           snd (uart_dev_t_load a l bytes) !! i = Some (if a =? 0 then 0x00 else 0xff))
     /\ (forall i : nat, (l <= i)%nat ->
           snd (uart_dev_t_load a l bytes) !! i = bytes !! i))
  /\ (a <> 0 -> a <> 4 -> uart_dev_t_load a l bytes = (false, bytes))
  /\ (fst (uart_dev_t_store print a l bytes) = true <-> In a [0; 4; 8; 12; 16])
  /\ (snd (uart_dev_t_store print a l bytes) <> [] ->
      a = 0 /\ print = true
      /\ snd (uart_dev_t_store print a l bytes) = [nth 0 bytes 0 mod 256]).
Proof.
  split; [| split; [| split]].
  - intros [-> | ->]; unfold uart_dev_t_load; cbn [Z.eqb Pos.eqb fst snd];
      destruct (fill_bytes_spec l 0x00 bytes) as (L0 & I0 & O0);
      destruct (fill_bytes_spec l 0xff bytes) as (L1 & I1 & O1);
      repeat split; assumption.
  - intros H0 H4. unfold uart_dev_t_load.
    destruct (Z.eqb_spec a 0); [contradiction |].
    destruct (Z.eqb_spec a 4); [contradiction | reflexivity].
  - unfold uart_dev_t_store. cbn [In].
    destruct (Z.eqb_spec a 0); [subst; cbn; split; [intros _; auto 10 | reflexivity] |].
    destruct (Z.eqb_spec a 4); [subst; cbn; split; [intros _; auto 10 | reflexivity] |].
    destruct (Z.eqb_spec a 8); [subst; cbn; split; [intros _; auto 10 | reflexivity] |].
    destruct (Z.eqb_spec a 12); [subst; cbn; split; [intros _; auto 10 | reflexivity] |].
    destruct (Z.eqb_spec a 16); [subst; cbn; split; [intros _; auto 10 | reflexivity] |].
    cbn [fst]. split; [discriminate |].
    intros [H | [H | [H | [H | [H | []]]]]]; congruence.
  - unfold uart_dev_t_store.
    destruct (Z.eqb_spec a 0).
    + destruct print; cbn [snd]; intros H; [auto | contradiction].
    + destruct (a =? 4); [cbn; intros H; contradiction |].
      destruct (a =? 8); [cbn; intros H; contradiction |].
      destruct (a =? 12); [cbn; intros H; contradiction |].
      destruct (a =? 16); cbn; intros H; contradiction.
Qed.

Lemma uart_registers_witness :
  fst (uart_dev_t_load 4 2 [1; 2; 3]) = true
  /\ snd (uart_dev_t_load 4 2 [1; 2; 3]) !! 1%nat = Some 0xff
  /\ snd (uart_dev_t_load 4 2 [1; 2; 3]) !! 2%nat = Some 3.
Proof.
  destruct (uart_registers true 4 2 [1; 2; 3]) as [Hload _].
  destruct Hload as (Hok & _ & Hin & Hout); [right; reflexivity |].
  split; [exact Hok | split].
  - apply (Hin 1%nat); cbn; lia.
  - rewrite (Hout 2%nat); [reflexivity | lia].
Defined.
